(** * psi4 functional registry and superfunctional builder

    A shallow embedding of
    [psi4/driver/procrouting/dft_funcs/dict_builder.py]:
    the alias table [functionals] built at import time from the
    definition tables and the dispersion coefficients, the validator
    [check_consistency], and the constructor
    [build_superfunctional_from_dictionary].

    Conventions of the embedding.
    - Python [str] is [string]; [Str.upper] upper-cases the letters a
      to z, which is what [str.upper] does on ASCII strings.  A
      statement that depends on it takes [ascii_only] of the names as
      a hypothesis.
    - Python [float] is IEEE binary64, here Rocq's primitive [float].
    - A Python [dict] whose iteration order matters is an association
      list in insertion order (its keys are pairwise distinct, so
      iterating the keys and indexing by each key is iterating the
      items); the alias table, which is only indexed, is a [gmap].
    - A functional definition is a Python dict with optional keys; it
      is a record whose optional keys are [option] fields.
    - Objects that are shared and mutated (the functional dictionaries)
      live in a heap, a list indexed by reference.
    - A raised exception is the [Raise] result. *)

From Stdlib Require Import Floats.PrimFloat.
From Stdlib Require Import ZArith Ascii String.
From stdpp Require Import base option list gmap strings.

Open Scope string_scope.
Open Scope list_scope.

(** ** Strings *)

Module Str.

Definition is_lower (c : ascii) : bool :=
  let n := nat_of_ascii c in (97 <=? n)%nat && (n <=? 122)%nat.

Definition upper_ascii (c : ascii) : ascii :=
  if is_lower c then ascii_of_nat (nat_of_ascii c - 32) else c.

(** [s.upper()] *)
Fixpoint upper (s : string) : string :=
  match s with
  | EmptyString => EmptyString
  | String c r => String (upper_ascii c) (upper r)
  end.

(** no character of [s] is a lower-case letter *)
Fixpoint no_lower (s : string) : bool :=
  match s with
  | EmptyString => true
  | String c r => negb (is_lower c) && no_lower r
  end.

(** no character of [s] is a hyphen *)
Fixpoint dash_free (s : string) : bool :=
  match s with
  | EmptyString => true
  | String c r => negb (Ascii.eqb c "-") && dash_free r
  end.

(** [sep.join(l)] *)
Definition join (sep : string) (l : list string) : string :=
  String.concat sep l.

Definition newline : string := String (ascii_of_nat 10) EmptyString.

End Str.

(** ** Python dictionaries in insertion order *)

Module Dict.

Definition t (V : Type) : Type := list (string * V).

Definition keys {V} (d : t V) : list string := d.*1.

(** [k in d.keys()] *)
Definition has_key {V} (k : string) (d : t V) : bool :=
  bool_decide (k ∈ keys d).

(** [d[k]], [None] standing for the [KeyError] *)
Fixpoint get {V} (k : string) (d : t V) : option V :=
  match d with
  | [] => None
  | (k', v) :: r => if String.eqb k' k then Some v else get k r
  end.

End Dict.

(** ** Exceptions *)

(** The seven failures of the validator.  In the source each is a
    [ValidationError] told apart by its message. *)
Inductive ErrorKind : Type :=
  | DuplicateExchangeSpec
  | DuplicateCorrelationSpec
  | MissingExchangeSpec
  | MissingCorrelationSpec
  | DuplicateHybridRequest
  | InconsistentExchangeSpec
  | UnresolvedHybridReference.

Inductive PyExn : Type :=
  | ValidationError (kind : ErrorKind) (functional : string)
  | NameError (ident : string)
  | UnboundLocalError (ident : string)
  | KeyError (key : string).

Inductive Result (A : Type) : Type :=
  | Ok (a : A)
  | Raise (e : PyExn).
Arguments Ok {A} a.
Arguments Raise {A} e.

Definition rbind {A B} (r : Result A) (k : A -> Result B) : Result B :=
  match r with
  | Ok a => k a
  | Raise e => Raise e
  end.

Notation "x ←! r ; k" := (rbind r (fun x => k))
  (at level 100, r at next level, right associativity, only parsing).
Notation "r ;;! k" := (rbind r (fun _ => k))
  (at level 100, right associativity, only parsing).

(** The text of each [ValidationError], as the source formats it. *)
Definition message (k : ErrorKind) (functional : string) : string :=
  match k with
  | DuplicateExchangeSpec =>
      "SCF: Duplicate specification of exchange (XC + X) in functional "
  | DuplicateCorrelationSpec =>
      "SCF: Duplicate specification of correlation (XC + C) in functional "
  | MissingExchangeSpec => "SCF: No exchange specified in functional "
  | MissingCorrelationSpec => "SCF: No correlation specified in functional "
  | DuplicateHybridRequest =>
      "SCF: Duplicate request for libxc exchange parameters in functional "
  | InconsistentExchangeSpec =>
      "SCF: Inconsistent definition of exchange in functional "
  | UnresolvedHybridReference =>
      "SCF: Libxc parameters requested for an exchange functional not defined as a component of functional "
  end +:+ functional +:+ ".".

(** ** Data model: the functional dictionaries *)

(** an entry of ["x_functionals"] *)
Record XParams : Type := {
  xp_alpha : option float;
  xp_omega : option float;
  xp_tweak : option (list float);
  xp_use_libxc : option bool
}.

(** ["x_hf"]; its ["use_libxc"] names a component *)
Record XHF : Type := {
  hf_alpha : option float;
  hf_beta : option float;
  hf_omega : option float;
  hf_use_libxc : option string
}.

(** an entry of ["c_functionals"] *)
Record CParams : Type := {
  cp_alpha : option float;
  cp_tweak : option (list float)
}.

(** ["c_mp2"] *)
Record CMP2 : Type := {
  mp2_alpha : option float;
  mp2_ss : option float;
  mp2_os : option float
}.

(** a row of [dashcoeff[scheme]] *)
Record CoeffRow : Type := {
  row_citation : option string;
  row_coeffs : Dict.t float
}.

(** the value under ["citation"] of a dispersion dictionary:
    a text, or the [False] that the constructor stores *)
Inductive CitationValue : Type :=
  | CitFalse
  | CitText (s : string).

(** ["dispersion"] *)
Record Dispersion : Type := {
  disp_type : string;
  disp_params : CoeffRow;
  disp_citation : option CitationValue
}.

(** a functional dictionary *)
Record FunctionalSpec : Type := {
  f_name : string;
  f_alias : option (list string);
  f_xc_functionals : option (Dict.t (Dict.t float));
  f_x_functionals : option (Dict.t XParams);
  f_x_hf : option XHF;
  f_c_functionals : option (Dict.t CParams);
  f_c_mp2 : option CMP2;
  f_citation : option string;
  f_description : option string;
  f_dispersion : option Dispersion
}.

Definition with_name (n : string) (d : FunctionalSpec) : FunctionalSpec :=
  {| f_name := n; f_alias := f_alias d;
     f_xc_functionals := f_xc_functionals d;
     f_x_functionals := f_x_functionals d; f_x_hf := f_x_hf d;
     f_c_functionals := f_c_functionals d; f_c_mp2 := f_c_mp2 d;
     f_citation := f_citation d; f_description := f_description d;
     f_dispersion := f_dispersion d |}.

Definition with_x_hf (x : option XHF) (d : FunctionalSpec) : FunctionalSpec :=
  {| f_name := f_name d; f_alias := f_alias d;
     f_xc_functionals := f_xc_functionals d;
     f_x_functionals := f_x_functionals d; f_x_hf := x;
     f_c_functionals := f_c_functionals d; f_c_mp2 := f_c_mp2 d;
     f_citation := f_citation d; f_description := f_description d;
     f_dispersion := f_dispersion d |}.

Definition with_dispersion (x : option Dispersion) (d : FunctionalSpec)
  : FunctionalSpec :=
  {| f_name := f_name d; f_alias := f_alias d;
     f_xc_functionals := f_xc_functionals d;
     f_x_functionals := f_x_functionals d; f_x_hf := f_x_hf d;
     f_c_functionals := f_c_functionals d; f_c_mp2 := f_c_mp2 d;
     f_citation := f_citation d; f_description := f_description d;
     f_dispersion := x |}.

(** ** The validator *)

(** [raise ValidationError("... %s." % (name))] inside
    [check_consistency(func_dictionary, func_name)].  The identifier
    [name] is not a local of that function (its parameter is
    [func_name]), so Python resolves it in the module namespace;
    [g_name] is its binding there, [None] when the module has none.
    The file itself binds no [name] at module level. *)
Definition raise_ValidationError {A} (g_name : option string) (k : ErrorKind)
  : Result A :=
  match g_name with
  | Some n => Raise (ValidationError k n)
  | None => Raise (NameError "name")
  end.

(** the loop of lines 119-122, one item at a time: the test is
    ["use_libxc" in func_dictionary["x_functionals"].keys()], a test on
    the component ids, followed by the lookup of ["use_libxc"] in the
    item's parameters *)
Definition count_step (x_functionals : Dict.t XParams)
    (acc : Result nat) (item : string * XParams) : Result nat :=
  use_libxc ←! acc;
  if Dict.has_key "use_libxc" x_functionals then
    match xp_use_libxc item.2 with
    | None => Raise (KeyError "use_libxc")
    | Some true => Ok (S use_libxc)
    | Some false => Ok use_libxc
    end
  else Ok use_libxc.

Definition count_use_libxc (x_functionals : Dict.t XParams) : Result nat :=
  fold_left (count_step x_functionals) x_functionals (Ok 0%nat).

Definition check_consistency (g_name : option string)
    (func_dictionary : FunctionalSpec) (func_name : string) : Result unit :=
  let has_xc := bool_decide (is_Some (f_xc_functionals func_dictionary)) in
  let has_x := bool_decide (is_Some (f_x_functionals func_dictionary)) in
  let has_x_hf := bool_decide (is_Some (f_x_hf func_dictionary)) in
  let has_c := bool_decide (is_Some (f_c_functionals func_dictionary)) in
  let has_c_mp2 := bool_decide (is_Some (f_c_mp2 func_dictionary)) in
  (if has_xc then
     if has_x || has_x_hf then
       raise_ValidationError g_name DuplicateExchangeSpec
     else if has_c || has_c_mp2 then
       raise_ValidationError g_name DuplicateCorrelationSpec
     else Ok tt
   else if negb has_x && negb has_x_hf then
     raise_ValidationError g_name MissingExchangeSpec
   else if negb has_c && negb has_c_mp2 then
     raise_ValidationError g_name MissingCorrelationSpec
   else Ok tt) ;;!
  use_libxc ←! match f_x_functionals func_dictionary with
               | Some x_functionals => count_use_libxc x_functionals
               | None => Ok 0%nat
               end;
  if (1 <? use_libxc)%nat then
    raise_ValidationError g_name DuplicateHybridRequest
  else if (use_libxc =? 1)%nat && has_x_hf then
    raise_ValidationError g_name InconsistentExchangeSpec
  else
    match f_x_hf func_dictionary with
    | None => Ok tt
    | Some x_hf =>
        match hf_use_libxc x_hf with
        | None => Ok tt
        | Some component =>
            match f_x_functionals func_dictionary with
            | None => Raise (KeyError "x_functionals")
            | Some x_functionals =>
                if Dict.has_key component x_functionals then Ok tt
                else raise_ValidationError g_name UnresolvedHybridReference
            end
        end
    end.

(** ** The objects of [psi4.core]

    [core.LibXCFunctional] and [core.SuperFunctional] are compiled
    objects outside this file.  They are modelled by the state their
    setters store and their queries read; what their constructors and
    [query_libxc] return is left to a [Core] record. *)

(** the dictionary returned by [query_libxc("XC_HYB_CAM_COEF")] *)
Record CamCoef : Type := {
  ALPHA : float;
  OMEGA : float;
  BETA : float
}.

(** Modelled from the spec: the elementary functional object of
    [psi4.core], by its contract in section 6 of the specification: a
    citation and a description, and setters for its own mixing
    coefficient, range-separation parameter and tweak. *)
Record LibXCFunctional : Type := {
  lx_name : string;
  lx_alpha : float;
  lx_omega : float;
  lx_tweak : list float;
  lx_citation : string;
  lx_description : string
}.

Module LibXC.

(** [x_func.set_alpha(v)] *)
Definition set_alpha (v : float) (x : LibXCFunctional) : LibXCFunctional :=
    {| lx_name := lx_name x;
     lx_alpha := v;
     lx_omega := lx_omega x;
     lx_tweak := lx_tweak x;
     lx_citation := lx_citation x;
     lx_description := lx_description x |}.

(** [x_func.set_omega(v)] *)
Definition set_omega (v : float) (x : LibXCFunctional) : LibXCFunctional :=
    {| lx_name := lx_name x;
     lx_alpha := lx_alpha x;
     lx_omega := v;
     lx_tweak := lx_tweak x;
     lx_citation := lx_citation x;
     lx_description := lx_description x |}.

(** [x_func.set_tweak(v)] *)
Definition set_tweak (v : list float) (x : LibXCFunctional) : LibXCFunctional :=
    {| lx_name := lx_name x;
     lx_alpha := lx_alpha x;
     lx_omega := lx_omega x;
     lx_tweak := v;
     lx_citation := lx_citation x;
     lx_description := lx_description x |}.

End LibXC.


(** Modelled from the spec: the composite functional object of
    [psi4.core], by its contract in section 6 of the specification:
    it accepts exchange and correlation components, stores what its
    setters are given, and answers the gga and mixing queries. *)
Record SuperFunctional : Type := {
  sf_name : string;
  sf_description : string;
  sf_citation : string;
  sf_x_functionals : list LibXCFunctional;
  sf_c_functionals : list LibXCFunctional;
  sf_x_alpha : float;
  sf_x_beta : float;
  sf_x_omega : float;
  sf_c_alpha : float;
  sf_c_ss_alpha : float;
  sf_c_os_alpha : float;
  sf_max_points : Z;
  sf_deriv : Z;
  sf_is_gga : bool;
  sf_allocated : bool
}.

Module Sup.

(** [sup.set_name(v)] *)
Definition set_name (v : string) (s : SuperFunctional) : SuperFunctional :=
    {| sf_name := v;
     sf_description := sf_description s;
     sf_citation := sf_citation s;
     sf_x_functionals := sf_x_functionals s;
     sf_c_functionals := sf_c_functionals s;
     sf_x_alpha := sf_x_alpha s;
     sf_x_beta := sf_x_beta s;
     sf_x_omega := sf_x_omega s;
     sf_c_alpha := sf_c_alpha s;
     sf_c_ss_alpha := sf_c_ss_alpha s;
     sf_c_os_alpha := sf_c_os_alpha s;
     sf_max_points := sf_max_points s;
     sf_deriv := sf_deriv s;
     sf_is_gga := sf_is_gga s;
     sf_allocated := sf_allocated s |}.

(** [sup.set_description(v)] *)
Definition set_description (v : string) (s : SuperFunctional) : SuperFunctional :=
    {| sf_name := sf_name s;
     sf_description := v;
     sf_citation := sf_citation s;
     sf_x_functionals := sf_x_functionals s;
     sf_c_functionals := sf_c_functionals s;
     sf_x_alpha := sf_x_alpha s;
     sf_x_beta := sf_x_beta s;
     sf_x_omega := sf_x_omega s;
     sf_c_alpha := sf_c_alpha s;
     sf_c_ss_alpha := sf_c_ss_alpha s;
     sf_c_os_alpha := sf_c_os_alpha s;
     sf_max_points := sf_max_points s;
     sf_deriv := sf_deriv s;
     sf_is_gga := sf_is_gga s;
     sf_allocated := sf_allocated s |}.

(** [sup.set_citation(v)] *)
Definition set_citation (v : string) (s : SuperFunctional) : SuperFunctional :=
    {| sf_name := sf_name s;
     sf_description := sf_description s;
     sf_citation := v;
     sf_x_functionals := sf_x_functionals s;
     sf_c_functionals := sf_c_functionals s;
     sf_x_alpha := sf_x_alpha s;
     sf_x_beta := sf_x_beta s;
     sf_x_omega := sf_x_omega s;
     sf_c_alpha := sf_c_alpha s;
     sf_c_ss_alpha := sf_c_ss_alpha s;
     sf_c_os_alpha := sf_c_os_alpha s;
     sf_max_points := sf_max_points s;
     sf_deriv := sf_deriv s;
     sf_is_gga := sf_is_gga s;
     sf_allocated := sf_allocated s |}.

(** [sup.add_x_functional(v)] *)
Definition add_x_functional (v : LibXCFunctional) (s : SuperFunctional) : SuperFunctional :=
    {| sf_name := sf_name s;
     sf_description := sf_description s;
     sf_citation := sf_citation s;
     sf_x_functionals := sf_x_functionals s ++ [v];
     sf_c_functionals := sf_c_functionals s;
     sf_x_alpha := sf_x_alpha s;
     sf_x_beta := sf_x_beta s;
     sf_x_omega := sf_x_omega s;
     sf_c_alpha := sf_c_alpha s;
     sf_c_ss_alpha := sf_c_ss_alpha s;
     sf_c_os_alpha := sf_c_os_alpha s;
     sf_max_points := sf_max_points s;
     sf_deriv := sf_deriv s;
     sf_is_gga := sf_is_gga s;
     sf_allocated := sf_allocated s |}.

(** [sup.add_c_functional(v)] *)
Definition add_c_functional (v : LibXCFunctional) (s : SuperFunctional) : SuperFunctional :=
    {| sf_name := sf_name s;
     sf_description := sf_description s;
     sf_citation := sf_citation s;
     sf_x_functionals := sf_x_functionals s;
     sf_c_functionals := sf_c_functionals s ++ [v];
     sf_x_alpha := sf_x_alpha s;
     sf_x_beta := sf_x_beta s;
     sf_x_omega := sf_x_omega s;
     sf_c_alpha := sf_c_alpha s;
     sf_c_ss_alpha := sf_c_ss_alpha s;
     sf_c_os_alpha := sf_c_os_alpha s;
     sf_max_points := sf_max_points s;
     sf_deriv := sf_deriv s;
     sf_is_gga := sf_is_gga s;
     sf_allocated := sf_allocated s |}.

(** [sup.set_x_alpha(v)] *)
Definition set_x_alpha (v : float) (s : SuperFunctional) : SuperFunctional :=
    {| sf_name := sf_name s;
     sf_description := sf_description s;
     sf_citation := sf_citation s;
     sf_x_functionals := sf_x_functionals s;
     sf_c_functionals := sf_c_functionals s;
     sf_x_alpha := v;
     sf_x_beta := sf_x_beta s;
     sf_x_omega := sf_x_omega s;
     sf_c_alpha := sf_c_alpha s;
     sf_c_ss_alpha := sf_c_ss_alpha s;
     sf_c_os_alpha := sf_c_os_alpha s;
     sf_max_points := sf_max_points s;
     sf_deriv := sf_deriv s;
     sf_is_gga := sf_is_gga s;
     sf_allocated := sf_allocated s |}.

(** [sup.set_x_beta(v)] *)
Definition set_x_beta (v : float) (s : SuperFunctional) : SuperFunctional :=
    {| sf_name := sf_name s;
     sf_description := sf_description s;
     sf_citation := sf_citation s;
     sf_x_functionals := sf_x_functionals s;
     sf_c_functionals := sf_c_functionals s;
     sf_x_alpha := sf_x_alpha s;
     sf_x_beta := v;
     sf_x_omega := sf_x_omega s;
     sf_c_alpha := sf_c_alpha s;
     sf_c_ss_alpha := sf_c_ss_alpha s;
     sf_c_os_alpha := sf_c_os_alpha s;
     sf_max_points := sf_max_points s;
     sf_deriv := sf_deriv s;
     sf_is_gga := sf_is_gga s;
     sf_allocated := sf_allocated s |}.

(** [sup.set_x_omega(v)] *)
Definition set_x_omega (v : float) (s : SuperFunctional) : SuperFunctional :=
    {| sf_name := sf_name s;
     sf_description := sf_description s;
     sf_citation := sf_citation s;
     sf_x_functionals := sf_x_functionals s;
     sf_c_functionals := sf_c_functionals s;
     sf_x_alpha := sf_x_alpha s;
     sf_x_beta := sf_x_beta s;
     sf_x_omega := v;
     sf_c_alpha := sf_c_alpha s;
     sf_c_ss_alpha := sf_c_ss_alpha s;
     sf_c_os_alpha := sf_c_os_alpha s;
     sf_max_points := sf_max_points s;
     sf_deriv := sf_deriv s;
     sf_is_gga := sf_is_gga s;
     sf_allocated := sf_allocated s |}.

(** [sup.set_c_alpha(v)] *)
Definition set_c_alpha (v : float) (s : SuperFunctional) : SuperFunctional :=
    {| sf_name := sf_name s;
     sf_description := sf_description s;
     sf_citation := sf_citation s;
     sf_x_functionals := sf_x_functionals s;
     sf_c_functionals := sf_c_functionals s;
     sf_x_alpha := sf_x_alpha s;
     sf_x_beta := sf_x_beta s;
     sf_x_omega := sf_x_omega s;
     sf_c_alpha := v;
     sf_c_ss_alpha := sf_c_ss_alpha s;
     sf_c_os_alpha := sf_c_os_alpha s;
     sf_max_points := sf_max_points s;
     sf_deriv := sf_deriv s;
     sf_is_gga := sf_is_gga s;
     sf_allocated := sf_allocated s |}.

(** [sup.set_c_ss_alpha(v)] *)
Definition set_c_ss_alpha (v : float) (s : SuperFunctional) : SuperFunctional :=
    {| sf_name := sf_name s;
     sf_description := sf_description s;
     sf_citation := sf_citation s;
     sf_x_functionals := sf_x_functionals s;
     sf_c_functionals := sf_c_functionals s;
     sf_x_alpha := sf_x_alpha s;
     sf_x_beta := sf_x_beta s;
     sf_x_omega := sf_x_omega s;
     sf_c_alpha := sf_c_alpha s;
     sf_c_ss_alpha := v;
     sf_c_os_alpha := sf_c_os_alpha s;
     sf_max_points := sf_max_points s;
     sf_deriv := sf_deriv s;
     sf_is_gga := sf_is_gga s;
     sf_allocated := sf_allocated s |}.

(** [sup.set_c_os_alpha(v)] *)
Definition set_c_os_alpha (v : float) (s : SuperFunctional) : SuperFunctional :=
    {| sf_name := sf_name s;
     sf_description := sf_description s;
     sf_citation := sf_citation s;
     sf_x_functionals := sf_x_functionals s;
     sf_c_functionals := sf_c_functionals s;
     sf_x_alpha := sf_x_alpha s;
     sf_x_beta := sf_x_beta s;
     sf_x_omega := sf_x_omega s;
     sf_c_alpha := sf_c_alpha s;
     sf_c_ss_alpha := sf_c_ss_alpha s;
     sf_c_os_alpha := v;
     sf_max_points := sf_max_points s;
     sf_deriv := sf_deriv s;
     sf_is_gga := sf_is_gga s;
     sf_allocated := sf_allocated s |}.

(** [sup.set_max_points(v)] *)
Definition set_max_points (v : Z) (s : SuperFunctional) : SuperFunctional :=
    {| sf_name := sf_name s;
     sf_description := sf_description s;
     sf_citation := sf_citation s;
     sf_x_functionals := sf_x_functionals s;
     sf_c_functionals := sf_c_functionals s;
     sf_x_alpha := sf_x_alpha s;
     sf_x_beta := sf_x_beta s;
     sf_x_omega := sf_x_omega s;
     sf_c_alpha := sf_c_alpha s;
     sf_c_ss_alpha := sf_c_ss_alpha s;
     sf_c_os_alpha := sf_c_os_alpha s;
     sf_max_points := v;
     sf_deriv := sf_deriv s;
     sf_is_gga := sf_is_gga s;
     sf_allocated := sf_allocated s |}.

(** [sup.set_deriv(v)] *)
Definition set_deriv (v : Z) (s : SuperFunctional) : SuperFunctional :=
    {| sf_name := sf_name s;
     sf_description := sf_description s;
     sf_citation := sf_citation s;
     sf_x_functionals := sf_x_functionals s;
     sf_c_functionals := sf_c_functionals s;
     sf_x_alpha := sf_x_alpha s;
     sf_x_beta := sf_x_beta s;
     sf_x_omega := sf_x_omega s;
     sf_c_alpha := sf_c_alpha s;
     sf_c_ss_alpha := sf_c_ss_alpha s;
     sf_c_os_alpha := sf_c_os_alpha s;
     sf_max_points := sf_max_points s;
     sf_deriv := v;
     sf_is_gga := sf_is_gga s;
     sf_allocated := sf_allocated s |}.

(** [sup.allocate()] *)
Definition allocate (s : SuperFunctional) : SuperFunctional :=
    {| sf_name := sf_name s;
     sf_description := sf_description s;
     sf_citation := sf_citation s;
     sf_x_functionals := sf_x_functionals s;
     sf_c_functionals := sf_c_functionals s;
     sf_x_alpha := sf_x_alpha s;
     sf_x_beta := sf_x_beta s;
     sf_x_omega := sf_x_omega s;
     sf_c_alpha := sf_c_alpha s;
     sf_c_ss_alpha := sf_c_ss_alpha s;
     sf_c_os_alpha := sf_c_os_alpha s;
     sf_max_points := sf_max_points s;
     sf_deriv := sf_deriv s;
     sf_is_gga := sf_is_gga s;
     sf_allocated := true |}.

End Sup.

(** what [psi4.core] provides to this file *)
Record Core : Type := {
  (** [core.SuperFunctional.XC_build(xc_name, restricted)] *)
  XC_build : string -> bool -> SuperFunctional;
  (** [core.SuperFunctional.blank()] *)
  blank : SuperFunctional;
  (** [core.LibXCFunctional(name, restricted)] *)
  LibXCFunctional_new : string -> bool -> LibXCFunctional;
  (** [x_func.query_libxc(ident)] *)
  query_libxc : LibXCFunctional -> string -> CamCoef
}.

(** ** The registry builder *)

(** alias table for dispersion, in insertion order *)
Definition dispersion_names : Dict.t string :=
  [ ("d2p4", "d2p4"); ("d2gr", "d2gr"); ("d3zero", "d3zero");
    ("d3bj", "d3bj"); ("d3mzero", "d3mzero"); ("d3mbj", "d3mbj");
    ("d", "d2p4"); ("d2", "d2p4"); ("d3", "d3zero"); ("d3m", "d3mzero") ].

Definition get_functional_aliases (functional_dict : FunctionalSpec)
  : list string :=
  match f_alias functional_dict with
  | Some alias =>
      map Str.upper alias ++ [Str.upper (f_name functional_dict)]
  | None => [Str.upper (f_name functional_dict)]
  end.

(** the spellings under which a definition is declared: its name and
    its aliases, as written in the definition source *)
Definition declared_names (functional_dict : FunctionalSpec) : list string :=
  f_name functional_dict :: default [] (f_alias functional_dict).

(** The functional dictionaries, by reference, and the alias table
    [functionals] from key to reference. *)
Record World : Type := {
  heap : list FunctionalSpec;
  functionals : gmap string nat
}.

(** [for alias in aliases: functionals[key_of(alias)] = target] *)
Definition register (key_of : string -> string) (target : nat)
    (aliases : list string) (fs : gmap string nat) : gmap string nat :=
  fold_left (fun fs alias => <[key_of alias := target]> fs) aliases fs.

(** the key [alias + "-" + dispersion_name.upper()] *)
Definition composite_key (dispersion_name : string) (alias : string) : string :=
  alias +:+ "-" +:+ Str.upper dispersion_name.

(** lines 88-94: the deep copy of the parent, renamed and given its
    dispersion dictionary *)
Definition dispersion_variant (parent : FunctionalSpec)
    (dispersion_type : string) (row : CoeffRow) : FunctionalSpec :=
  with_dispersion
    (Some {| disp_type := dispersion_type;
             disp_params := row;
             disp_citation := CitText <$> row_citation row |})
    (with_name (f_name parent +:+ "-" +:+ dispersion_type) parent).

(** lines 86-97, one key of [dashcoeff[dispersion_type]] at a time *)
Definition row_step (parent : FunctionalSpec) (functional_aliases : list string)
    (dispersion_name dispersion_type : string)
    (w : World) (item : string * CoeffRow) : World :=
  if bool_decide (Str.upper item.1 ∈ functional_aliases) then
    let func := length (heap w) in
    {| heap := heap w ++ [dispersion_variant parent dispersion_type item.2];
       functionals :=
         register (composite_key dispersion_name) func functional_aliases
                  (functionals w) |}
  else w.

(** lines 84-97, one key of [dispersion_names] at a time *)
Definition name_step (dashcoeff : Dict.t (Dict.t CoeffRow))
    (parent : FunctionalSpec) (functional_aliases : list string)
    (acc : Result World) (item : string * string) : Result World :=
  w ←! acc;
  match Dict.get item.2 dashcoeff with
  | None => Raise (KeyError item.2)
  | Some table =>
      Ok (fold_left (row_step parent functional_aliases item.1 item.2) table w)
  end.

(** lines 75-97 for the functional stored at reference [ref] *)
Definition process_functional (dashcoeff : Dict.t (Dict.t CoeffRow))
    (ref : nat) (functional : FunctionalSpec) (w : World) : Result World :=
  let functional_aliases := get_functional_aliases functional in
  let w := {| heap := heap w;
              functionals := register id ref functional_aliases (functionals w) |} in
  if bool_decide (is_Some (f_dispersion functional)) then Ok w
  else
    fold_left (name_step dashcoeff functional functional_aliases)
              dispersion_names (Ok w).

(** the loop of line 74 over [dict_functionals], whose values sit in
    the heap at consecutive references from [ref] on *)
Fixpoint registry_loop (dashcoeff : Dict.t (Dict.t CoeffRow)) (ref : nat)
    (defs : Dict.t FunctionalSpec) (w : World) : Result World :=
  match defs with
  | [] => Ok w
  | (functional_name, functional) :: rest =>
      w' ←! process_functional dashcoeff ref functional w;
      registry_loop dashcoeff (S ref) rest w'
  end.

(** lines 73-97: the module-level construction of [functionals] *)
Definition build_functionals (dict_functionals : Dict.t FunctionalSpec)
    (dashcoeff : Dict.t (Dict.t CoeffRow)) : Result World :=
  registry_loop dashcoeff 0 dict_functionals
    {| heap := dict_functionals.*2; functionals := ∅ |}.

(** the keys that processing one functional writes *)
Definition composite_keys (dashcoeff : Dict.t (Dict.t CoeffRow))
    (functional : FunctionalSpec) : list string :=
  if bool_decide (is_Some (f_dispersion functional)) then []
  else
    let functional_aliases := get_functional_aliases functional in
    flat_map
      (fun item : string * string =>
         match Dict.get item.2 dashcoeff with
         | None => []
         | Some table =>
             if existsb (fun row : string * CoeffRow =>
                           bool_decide (Str.upper row.1 ∈ functional_aliases))
                        table
             then map (composite_key item.1) functional_aliases
             else []
         end)
      dispersion_names.

(** In [w] the key [k] refers to a dispersion-corrected copy of
    [parent] for the scheme [dispersion_type]. *)
Definition resolves_to_variant (w : World) (k : string)
    (parent : FunctionalSpec) (dispersion_type : string) : Prop :=
  exists ref row,
    functionals w !! k = Some ref /\
    heap w !! ref = Some (dispersion_variant parent dispersion_type row).

(** [dashcoeff] has an entry for every scheme of [dispersion_names] *)
Definition covers_schemes (dashcoeff : Dict.t (Dict.t CoeffRow)) : Prop :=
  Forall (fun item : string * string => is_Some (Dict.get item.2 dashcoeff))
         dispersion_names.

Definition written_keys (dashcoeff : Dict.t (Dict.t CoeffRow))
    (functional : FunctionalSpec) : list string :=
  get_functional_aliases functional ++ composite_keys dashcoeff functional.

(** ** The constructor *)

Section Constructor.

Context (core : Core).

(** the state of the loop of lines 159-176 *)
Record XAcc : Type := {
  acc_sup : SuperFunctional;
  acc_citation : list string;
  acc_descr : list string;
  acc_x_HF : CamCoef
}.

(** [if s not in l: l.append(s)] *)
Definition append_new (s : string) (l : list string) : list string :=
  if bool_decide (s ∈ l) then l else l ++ [s].

(** [x_params["use_libxc"]] is present and truthy *)
Definition requests_libxc (x_params : XParams) : bool :=
  match xp_use_libxc x_params with
  | Some b => b
  | None => false
  end.

(** lines 160-176 *)
Definition x_step (restricted : bool) (acc : XAcc) (item : string * XParams)
  : XAcc :=
  let x_key := item.1 in
  let x_params := item.2 in
  let x_name := "XC_" +:+ x_key in
  let x_func := LibXCFunctional_new core x_name restricted in
  let x_HF :=
    if requests_libxc x_params
    then query_libxc core x_func "XC_HYB_CAM_COEF" else acc_x_HF acc in
  let x_func :=
    if requests_libxc x_params then LibXC.set_alpha 1%float x_func
    else x_func in
  let x_func :=
    match xp_tweak x_params with
    | Some v => LibXC.set_tweak v x_func
    | None => x_func
    end in
  let x_func :=
    match xp_alpha x_params with
    | Some v => LibXC.set_alpha v x_func
    | None => x_func
    end in
  let x_func :=
    match xp_omega x_params with
    | Some v => LibXC.set_omega v x_func
    | None => x_func
    end in
  {| acc_sup := Sup.add_x_functional x_func (acc_sup acc);
     acc_citation := append_new (lx_citation x_func) (acc_citation acc);
     acc_descr := append_new (lx_description x_func) (acc_descr acc);
     acc_x_HF := x_HF |}.

(** lines 197-210 *)
Definition c_step (restricted : bool) (acc : XAcc) (item : string * CParams)
  : XAcc :=
  let c_key := item.1 in
  let c_params := item.2 in
  let c_name := "XC_" +:+ c_key in
  let c_func := LibXCFunctional_new core c_name restricted in
  let c_func :=
    match cp_tweak c_params with
    | Some v => LibXC.set_tweak v c_func
    | None => c_func
    end in
  let c_func :=
    match cp_alpha c_params with
    | Some v => LibXC.set_alpha v c_func
    | None => LibXC.set_alpha 1%float c_func
    end in
  {| acc_sup := Sup.add_c_functional c_func (acc_sup acc);
     acc_citation := append_new (lx_citation c_func) (acc_citation acc);
     acc_descr := append_new (lx_description c_func) (acc_descr acc);
     acc_x_HF := acc_x_HF acc |}.

Definition with_sup (f : SuperFunctional -> SuperFunctional) (acc : XAcc)
  : XAcc :=
  {| acc_sup := f (acc_sup acc); acc_citation := acc_citation acc;
     acc_descr := acc_descr acc; acc_x_HF := acc_x_HF acc |}.

(** line 185: [x_params["alpha"] = 0.0] when the key is absent *)
Definition fill_alpha (x_params : XHF) : XHF :=
  match hf_alpha x_params with
  | Some _ => x_params
  | None => {| hf_alpha := Some 0%float; hf_beta := hf_beta x_params;
               hf_omega := hf_omega x_params;
               hf_use_libxc := hf_use_libxc x_params |}
  end.

(** lines 177-193.  The second component is the ["x_hf"] dictionary
    after the block, which line 185 may have written to. *)
Definition apply_x_hf (restricted : bool) (x_hf : option XHF)
    (x_HF : CamCoef) (sup : SuperFunctional)
  : SuperFunctional * option XHF :=
  match x_hf with
  | Some x_params =>
      (* lines 179-181: x_HF is rebound here and not read again *)
      let x_HF :=
        match hf_use_libxc x_params with
        | Some component =>
            query_libxc core
              (LibXCFunctional_new core ("XC_" +:+ component) restricted)
              "XC_HYB_CAM_COEF"
        | None => x_HF
        end in
      let sup1 :=
        match hf_alpha x_params with
        | Some v => Sup.set_x_alpha v sup
        | None => sup
        end in
      let x_params1 := fill_alpha x_params in
      let sup2 :=
        match hf_beta x_params1 with
        | Some v => Sup.set_x_beta v sup1
        | None => sup1
        end in
      let sup3 :=
        match hf_omega x_params1 with
        | Some v => Sup.set_x_omega v sup2
        | None => sup2
        end in
      (sup3, Some x_params1)
  | None =>
      (Sup.set_x_omega (OMEGA x_HF)
         (Sup.set_x_beta (ALPHA x_HF - BETA x_HF)%float
            (Sup.set_x_alpha (ALPHA x_HF + BETA x_HF)%float sup)),
       None)
  end.

(** lines 211-220 *)
Definition apply_c_mp2 (c_mp2 : option CMP2) (sup : SuperFunctional)
  : SuperFunctional :=
  match c_mp2 with
  | Some c_params =>
      let sup :=
        match mp2_alpha c_params with
        | Some v => Sup.set_c_alpha v sup
        | None => Sup.set_c_alpha 0%float sup
        end in
      let sup :=
        match mp2_ss c_params with
        | Some v => Sup.set_c_ss_alpha v sup
        | None => sup
        end in
      match mp2_os c_params with
      | Some v => Sup.set_c_os_alpha v sup
      | None => sup
      end
  | None => sup
  end.

(** lines 141-142: the loop rebinds [xc_name] at every key; [None] is
    the name left unbound by an empty loop *)
Definition xc_name_of (xc_functionals : Dict.t (Dict.t float)) : option string :=
  fold_left (fun _ xc_key => Some ("XC_" +:+ xc_key))
            (Dict.keys xc_functionals) None.

(** lines 144-150 *)
Definition bundled_description (name : string) (sup : SuperFunctional)
  : string :=
  let descr := "    " +:+ Str.upper name +:+ " " in
  let descr :=
    if sf_is_gga sup then
      if (0 <? sf_x_alpha sup)%float then descr +:+ "Hyb-GGA "
      else descr +:+ "GGA "
    else descr in
  descr +:+ "Exchange-Correlation Functional" +:+ Str.newline.

(** lines 141-151 *)
Definition build_bundled (name : string) (restricted : bool)
    (xc_functionals : Dict.t (Dict.t float)) : Result SuperFunctional :=
  match xc_name_of xc_functionals with
  | None => Raise (UnboundLocalError "xc_name")
  | Some xc_name =>
      let sup := XC_build core xc_name restricted in
      Ok (Sup.set_description (bundled_description name sup) sup)
  end.

(** lines 153-224.  The second component is the functional dictionary
    after the block. *)
Definition build_composite (restricted : bool) (func : FunctionalSpec)
  : SuperFunctional * FunctionalSpec :=
  let acc := {| acc_sup := blank core; acc_citation := []; acc_descr := [];
                acc_x_HF := {| ALPHA := 0; OMEGA := 0; BETA := 0 |} |} in
  let acc :=
    match f_x_functionals func with
    | Some x_funcs => fold_left (x_step restricted) x_funcs acc
    | None => acc
    end in
  let '(sup, x_hf) :=
    apply_x_hf restricted (f_x_hf func) (acc_x_HF acc) (acc_sup acc) in
  let func := with_x_hf x_hf func in
  let acc := with_sup (fun _ => sup) acc in
  let acc :=
    match f_c_functionals func with
    | Some c_funcs => fold_left (c_step restricted) c_funcs acc
    | None => acc
    end in
  let sup := apply_c_mp2 (f_c_mp2 func) (acc_sup acc) in
  let descr := Str.join Str.newline (acc_descr acc) in
  let citation := Str.join Str.newline (acc_citation acc) in
  (Sup.set_description descr (Sup.set_citation citation sup), func).

(** line 235: [d_params["citation"] = False] when the key is absent *)
Definition fill_citation (d_params : Dispersion) : Dispersion :=
  match disp_citation d_params with
  | Some _ => d_params
  | None => {| disp_type := disp_type d_params;
               disp_params := disp_params d_params;
               disp_citation := Some CitFalse |}
  end.

(** lines 231-236.  The first component is the second value that the
    constructor returns, [None] for its [False]; the second is the
    ["dispersion"] entry of the functional dictionary after the block:
    the returned dictionary is that very object. *)
Definition take_dispersion (dispersion : option Dispersion)
  : option Dispersion * option Dispersion :=
  match dispersion with
  | Some d_params =>
      let d_params := fill_citation d_params in
      (Some d_params, Some d_params)
  | None => (None, None)
  end.

(** lines 226-229 *)
Definition apply_overrides (func : FunctionalSpec) (sup : SuperFunctional)
  : SuperFunctional :=
  let sup :=
    match f_citation func with
    | Some v => Sup.set_citation v sup
    | None => sup
    end in
  match f_description func with
  | Some v => Sup.set_description v sup
  | None => sup
  end.

(** lines 238-241 *)
Definition finalize (name : string) (npoints deriv : Z)
    (sup : SuperFunctional) : SuperFunctional :=
  let sup := Sup.set_max_points npoints sup in
  let sup := Sup.set_deriv deriv sup in
  let sup := Sup.set_name (Str.upper name) sup in
  Sup.allocate sup.

(** lines 139-242 on the dictionary [func] that [functionals[name]]
    refers to; the second component is that dictionary when the call
    ends, by [return] or by an exception. *)
Definition build_from (g_name : option string) (func : FunctionalSpec)
    (name : string) (npoints deriv : Z) (restricted : bool)
  : Result (SuperFunctional * option Dispersion) * FunctionalSpec :=
  match check_consistency g_name func name with
  | Raise e => (Raise e, func)
  | Ok _ =>
      let '(r, func) :=
        match f_xc_functionals func with
        | Some xc_functionals =>
            (build_bundled name restricted xc_functionals, func)
        | None =>
            let '(sup, func) := build_composite restricted func in
            (Ok sup, func)
        end in
      match r with
      | Raise e => (Raise e, func)
      | Ok sup =>
          let sup := apply_overrides func sup in
          let '(dispersion, d) := take_dispersion (f_dispersion func) in
          let func := with_dispersion d func in
          (Ok (finalize name npoints deriv sup, dispersion), func)
      end
  end.

(** [build_superfunctional_from_dictionary(name, npoints, deriv,
    restricted)] in the world [w]: the result, and the world after the
    call.  [functionals[name]] is an exact lookup of [name]. *)
Definition build_superfunctional_from_dictionary (g_name : option string)
    (w : World) (name : string) (npoints deriv : Z) (restricted : bool)
  : Result (SuperFunctional * option Dispersion) * World :=
  match functionals w !! name with
  | None => (Raise (KeyError name), w)
  | Some ref =>
      match heap w !! ref with
      | None => (Raise (KeyError name), w) (* no reference dangles *)
      | Some func =>
          let '(r, func') :=
            build_from g_name func name npoints deriv restricted in
          (r, {| heap := <[ref := func']> (heap w);
                 functionals := functionals w |})
      end
  end.

End Constructor.

(** ** What the import leaves behind *)

(** [v] is a copy that lines 88-94 make: of a definition of the source
    without ["dispersion"], for a scheme of the alias table and a row
    of the coefficient table whose key matches one of its names *)
Definition is_variant_from (defs : Dict.t FunctionalSpec)
    (dashcoeff : Dict.t (Dict.t CoeffRow)) (v : FunctionalSpec) : Prop :=
  exists parent s t table row_key row,
    parent ∈ defs.*2 /\ f_dispersion parent = None /\
    (s, t) ∈ dispersion_names /\ Dict.get t dashcoeff = Some table /\
    (row_key, row) ∈ table /\
    Str.upper row_key ∈ get_functional_aliases parent /\
    v = dispersion_variant parent t row.

(** the key [key] refers to the definition at [ref] under one of its
    names, or to a copy under a composite key whose short name stands
    for the scheme of the copy *)
Definition registered_soundly (defs : Dict.t FunctionalSpec) (w : World)
    (key : string) (ref : nat) : Prop :=
  (exists n f, defs !! ref = Some (n, f) /\ key ∈ get_functional_aliases f) \/
  (exists parent s t row a,
     heap w !! ref = Some (dispersion_variant parent t row) /\
     parent ∈ defs.*2 /\ (s, t) ∈ dispersion_names /\
     a ∈ get_functional_aliases parent /\ key = composite_key s a).

Definition import_invariant (defs : Dict.t FunctionalSpec)
    (dashcoeff : Dict.t (Dict.t CoeffRow)) (w : World) : Prop :=
  (exists variants,
     heap w = defs.*2 ++ variants /\
     Forall (is_variant_from defs dashcoeff) variants) /\
  (forall key ref,
     functionals w !! key = Some ref -> registered_soundly defs w key ref).

(** [func["dispersion"]["type"]], the empty string when there is no
    ["dispersion"] *)
Definition disp_type_of (func : FunctionalSpec) : string :=
  default "" (disp_type <$> f_dispersion func).

(** every character of [s] is an ASCII character (below 128); on such
    strings [Str.upper] is what Python's [str.upper] returns, and the
    lower-case letters are the characters a to z *)
Fixpoint ascii_only (s : string) : bool :=
  match s with
  | EmptyString => true
  | String c r => (nat_of_ascii c <? 128)%nat && ascii_only r
  end.

(** ** The definition source *)

(** [d[k] = v]: an existing key keeps its place and takes the new
    value, a new key goes last *)
Fixpoint dict_setitem {V} (k : string) (v : V) (d : Dict.t V) : Dict.t V :=
  match d with
  | [] => [(k, v)]
  | (k', v') :: r =>
      if String.eqb k' k then (k', v) :: r
      else (k', v') :: dict_setitem k v r
  end.

(** [d.update(other)] *)
Definition dict_update {V} (d other : Dict.t V) : Dict.t V :=
  fold_left (fun d item => dict_setitem item.1 item.2 d) other d.

(** lines 44-50: [dict_functionals], from the [functional_list] of the
    six definition modules, in the order of the [update] calls *)
Definition merge_functional_lists
    (xc lda gga mgga hyb dh : Dict.t FunctionalSpec) : Dict.t FunctionalSpec :=
  let dict_functionals := [] in
  let dict_functionals := dict_update dict_functionals xc in
  let dict_functionals := dict_update dict_functionals lda in
  let dict_functionals := dict_update dict_functionals gga in
  let dict_functionals := dict_update dict_functionals mgga in
  let dict_functionals := dict_update dict_functionals hyb in
  dict_update dict_functionals dh.

(** the dictionary that [functionals[name]] refers to once a call of
    the constructor has returned: lines 185 and 235 have stored their
    defaults *)
Definition with_defaults (func : FunctionalSpec) : FunctionalSpec :=
  with_dispersion (fill_citation <$> f_dispersion func)
    (with_x_hf (fill_alpha <$> f_x_hf func) func).

(** the elementary functional that lines 160-171 add for one entry of
    ["x_functionals"] *)
Definition x_component (core : Core) (restricted : bool)
    (item : string * XParams) : LibXCFunctional :=
  let x_func := LibXCFunctional_new core ("XC_" +:+ item.1) restricted in
  let x_func :=
    if requests_libxc item.2 then LibXC.set_alpha 1%float x_func
    else x_func in
  let x_func :=
    match xp_tweak item.2 with
    | Some v => LibXC.set_tweak v x_func
    | None => x_func
    end in
  let x_func :=
    match xp_alpha item.2 with
    | Some v => LibXC.set_alpha v x_func
    | None => x_func
    end in
  match xp_omega item.2 with
  | Some v => LibXC.set_omega v x_func
  | None => x_func
  end.

(** the elementary functional that lines 197-205 add for one entry of
    ["c_functionals"] *)
Definition c_component (core : Core) (restricted : bool)
    (item : string * CParams) : LibXCFunctional :=
  let c_func := LibXCFunctional_new core ("XC_" +:+ item.1) restricted in
  let c_func :=
    match cp_tweak item.2 with
    | Some v => LibXC.set_tweak v c_func
    | None => c_func
    end in
  match cp_alpha item.2 with
  | Some v => LibXC.set_alpha v c_func
  | None => LibXC.set_alpha 1%float c_func
  end.

(** the elementary functionals of a definition, exchange first, in the
    order of the two loops *)
Definition components (core : Core) (restricted : bool)
    (func : FunctionalSpec) : list LibXCFunctional :=
  map (x_component core restricted) (default [] (f_x_functionals func)) ++
  map (c_component core restricted) (default [] (f_c_functionals func)).

(** [for s in l: if s not in acc: acc.append(s)] *)
Definition collect_new (acc l : list string) : list string :=
  fold_left (fun acc s => append_new s acc) l acc.

(** ** Concrete tables and functionals *)

Module Examples.

Definition plain : XParams :=
  {| xp_alpha := None; xp_omega := None; xp_tweak := None;
     xp_use_libxc := None |}.

Definition hybrid : XParams :=
  {| xp_alpha := None; xp_omega := None; xp_tweak := None;
     xp_use_libxc := Some true |}.

Definition c_plain : CParams := {| cp_alpha := None; cp_tweak := None |}.

(** a dictionary with a name and nothing else *)
Definition bare (n : string) : FunctionalSpec :=
  {| f_name := n; f_alias := None; f_xc_functionals := None;
     f_x_functionals := None; f_x_hf := None; f_c_functionals := None;
     f_c_mp2 := None; f_citation := None; f_description := None;
     f_dispersion := None |}.

(** exchange and correlation given by components *)
Definition separate (n : string) (alias : option (list string))
    (x : Dict.t XParams) (x_hf : option XHF) (c : Dict.t CParams)
  : FunctionalSpec :=
  {| f_name := n; f_alias := alias; f_xc_functionals := None;
     f_x_functionals := Some x; f_x_hf := x_hf; f_c_functionals := Some c;
     f_c_mp2 := None; f_citation := None; f_description := None;
     f_dispersion := None |}.

(** two exchange components, both with ["use_libxc": True] *)
Definition two_hybrid : FunctionalSpec :=
  separate "TWOHYB" None
    [("GGA_X_B88", hybrid); ("GGA_X_PBE", hybrid)] None
    [("GGA_C_LYP", c_plain)].

(** one exchange component with ["use_libxc": True], and ["x_hf"] *)
Definition hybrid_and_x_hf : FunctionalSpec :=
  separate "HYBHF" None [("GGA_X_B88", hybrid)]
    (Some {| hf_alpha := Some 0.25%float; hf_beta := None; hf_omega := None;
             hf_use_libxc := None |})
    [("GGA_C_LYP", c_plain)].

(** two components with ["use_libxc": True], and an ["x_hf"] whose
    ["use_libxc"] names a component that is not there *)
Definition two_hybrid_unresolved : FunctionalSpec :=
  separate "TWOHYBHF" None
    [("GGA_X_B88", hybrid); ("GGA_X_PBE", hybrid)]
    (Some {| hf_alpha := None; hf_beta := None; hf_omega := None;
             hf_use_libxc := Some "GGA_X_B86" |})
    [("GGA_C_LYP", c_plain)].

(** ["xc_functionals"] together with ["x_functionals"] *)
Definition xc_and_x : FunctionalSpec :=
  {| f_name := "XCX"; f_alias := None;
     f_xc_functionals := Some [("HYB_GGA_XC_PBEH", [])];
     f_x_functionals := Some [("GGA_X_B88", plain)]; f_x_hf := None;
     f_c_functionals := None; f_c_mp2 := None; f_citation := None;
     f_description := None; f_dispersion := None |}.

(** a bundled hybrid *)
Definition pbe0 : FunctionalSpec :=
  {| f_name := "PBE0"; f_alias := Some ["PBEH"];
     f_xc_functionals := Some [("HYB_GGA_XC_PBEH", [])];
     f_x_functionals := None; f_x_hf := None;
     f_c_functionals := None; f_c_mp2 := None; f_citation := None;
     f_description := None; f_dispersion := None |}.

(** a bundled definition listing two component ids *)
Definition two_bundled : FunctionalSpec :=
  {| f_name := "TWOXC"; f_alias := None;
     f_xc_functionals := Some [("GGA_XC_HCTH_93", []); ("HYB_GGA_XC_PBEH", [])];
     f_x_functionals := None; f_x_hf := None;
     f_c_functionals := None; f_c_mp2 := None; f_citation := None;
     f_description := None; f_dispersion := None |}.

Definition b88 : FunctionalSpec :=
  separate "B88" None [("GGA_X_B88", plain)] None [].

Definition beta_only_x_hf : XHF :=
  {| hf_alpha := None; hf_beta := Some 0.5%float; hf_omega := None;
     hf_use_libxc := None |}.

(** a hybrid by ["x_hf"] with ["beta"] only *)
Definition beta_only : FunctionalSpec :=
  separate "BETAONLY" (Some ["bo"]) [("GGA_X_B88", plain)]
    (Some beta_only_x_hf) [("GGA_C_LYP", c_plain)].

(** a definition that carries its own dispersion and whose name is
    the composite key of [b88] under the short name ["d3"] *)
Definition b88_d3 : FunctionalSpec :=
  with_dispersion
    (Some {| disp_type := "d3bj";
             disp_params := {| row_citation := None;
                               row_coeffs := [("s6", 1%float)] |};
             disp_citation := Some (CitText "own") |})
    (separate "B88-D3" None [("GGA_X_B88", plain)] None []).

Definition d3zero_row : CoeffRow :=
  {| row_citation := None;
     row_coeffs := [("s6", 1%float); ("s8", 0.5%float)] |}.

(** a coefficient table with the six schemes, one row under d3zero *)
Definition dashcoeff : Dict.t (Dict.t CoeffRow) :=
  [ ("d2p4", []); ("d2gr", []); ("d3zero", [("b88", d3zero_row)]);
    ("d3bj", []); ("d3mzero", []); ("d3mbj", []) ].

Definition dict_functionals : Dict.t FunctionalSpec :=
  [ ("b88", b88); ("pbe0", pbe0); ("betaonly", beta_only);
    ("twohyb", two_hybrid); ("twoxc", two_bundled) ].

(** a definition source in which a later definition takes a composite
    key of an earlier one *)
Definition dict_functionals_clash : Dict.t FunctionalSpec :=
  [ ("b88", b88); ("b88-d3", b88_d3) ].

Definition zero_sup (n : string) (x_alpha : float) (gga : bool)
  : SuperFunctional :=
  {| sf_name := n; sf_description := ""; sf_citation := "";
     sf_x_functionals := []; sf_c_functionals := [];
     sf_x_alpha := x_alpha; sf_x_beta := 0; sf_x_omega := 0;
     sf_c_alpha := 0; sf_c_ss_alpha := 0; sf_c_os_alpha := 0;
     sf_max_points := 0; sf_deriv := 0; sf_is_gga := gga;
     sf_allocated := false |}.

(** a [Core] whose bundled functionals are global hybrids with a
    quarter of exact exchange, and whose elementary functionals report
    the coefficients (1/4, 1/8, 1/2) *)
Definition core : Core :=
  {| XC_build := fun xc_name _ => zero_sup xc_name 0.25 true;
     blank := zero_sup "" 0 false;
     LibXCFunctional_new := fun n _ =>
       {| lx_name := n; lx_alpha := 1; lx_omega := 0; lx_tweak := [];
          lx_citation := "ref " +:+ n; lx_description := n |};
     query_libxc := fun _ _ =>
       {| ALPHA := 0.25; OMEGA := 0.5; BETA := 0.125 |} |}.

(** the world that importing the module leaves behind *)
Definition world : World :=
  match build_functionals dict_functionals dashcoeff with
  | Ok w => w
  | Raise _ => {| heap := []; functionals := ∅ |}
  end.

End Examples.

Module MoreExamples.

(** the world with one functional dictionary under one key *)
Definition world_of (key : string) (func : FunctionalSpec) : World :=
  {| heap := [func]; functionals := {[ key := 0%nat ]} |}.

(** ["x_hf"] asks for the libxc parameters of a component, and there
    is no ["x_functionals"] *)
Definition dangling_x_hf : FunctionalSpec :=
  {| f_name := "DANGLE"; f_alias := None; f_xc_functionals := None;
     f_x_functionals := None;
     f_x_hf := Some {| hf_alpha := None; hf_beta := None; hf_omega := None;
                       hf_use_libxc := Some "GGA_X_B88" |};
     f_c_functionals := Some [("GGA_C_LYP", Examples.c_plain)];
     f_c_mp2 := None; f_citation := None; f_description := None;
     f_dispersion := None |}.

(** an exchange component that is itself called ["use_libxc"], beside
    a component without the flag *)
Definition named_use_libxc : FunctionalSpec :=
  Examples.separate "ODD" None
    [("use_libxc", Examples.hybrid); ("GGA_X_B88", Examples.plain)] None
    [("GGA_C_LYP", Examples.c_plain)].

(** a bundled definition with no component id *)
Definition empty_bundle : FunctionalSpec :=
  {| f_name := "EMPTY"; f_alias := None; f_xc_functionals := Some [];
     f_x_functionals := None; f_x_hf := None; f_c_functionals := None;
     f_c_mp2 := None; f_citation := None; f_description := None;
     f_dispersion := None |}.

(** a double hybrid with its own citation and description, whose
    flagged exchange component also gives an ["alpha"] *)
Definition double_hybrid : FunctionalSpec :=
  {| f_name := "DH"; f_alias := None; f_xc_functionals := None;
     f_x_functionals :=
       Some [("GGA_X_B88",
              {| xp_alpha := Some 0.5%float; xp_omega := None;
                 xp_tweak := None; xp_use_libxc := Some true |});
             ("GGA_X_PBE", Examples.plain)];
     f_x_hf := None;
     f_c_functionals :=
       Some [("GGA_C_LYP", Examples.c_plain);
             ("GGA_C_PBE", {| cp_alpha := Some 0.25%float;
                              cp_tweak := None |})];
     f_c_mp2 := Some {| mp2_alpha := Some 0.25%float; mp2_ss := None;
                        mp2_os := Some 0.5%float |};
     f_citation := Some "A. Author, J. Chem. Phys. (1999)";
     f_description := Some "A double hybrid";
     f_dispersion := None |}.

(** ["xc_functionals"] together with ["c_functionals"] *)
Definition xc_and_c : FunctionalSpec :=
  {| f_name := "XCC"; f_alias := None;
     f_xc_functionals := Some [("HYB_GGA_XC_PBEH", [])];
     f_x_functionals := None; f_x_hf := None;
     f_c_functionals := Some [("GGA_C_LYP", Examples.c_plain)];
     f_c_mp2 := None; f_citation := None; f_description := None;
     f_dispersion := None |}.

(** exchange by ["x_hf"] and no correlation *)
Definition x_only : FunctionalSpec :=
  {| f_name := "XONLY"; f_alias := None; f_xc_functionals := None;
     f_x_functionals := None; f_x_hf := Some Examples.beta_only_x_hf;
     f_c_functionals := None; f_c_mp2 := None; f_citation := None;
     f_description := None; f_dispersion := None |}.


(** a coefficient table without the scheme d2gr *)
Definition dashcoeff_short : Dict.t (Dict.t CoeffRow) :=
  [ ("d2p4", []); ("d3zero", [("b88", Examples.d3zero_row)]) ].

(** two definition modules that both define the key ["pbe0"] *)
Definition gga_list : Dict.t FunctionalSpec :=
  [ ("b88", Examples.b88); ("pbe0", Examples.bare "PBE0-draft") ].

Definition hyb_list : Dict.t FunctionalSpec :=
  [ ("pbe0", Examples.pbe0); ("betaonly", Examples.beta_only) ].

End MoreExamples.

(** a decidable proposition settled by evaluation *)
Ltac by_computation := apply (bool_decide_unpack _); vm_compute; exact I.

(** * Properties *)

(** ** Strings *)

Lemma upper_ascii_idem (c : ascii) :
  Str.upper_ascii (Str.upper_ascii c) = Str.upper_ascii c.
Proof.
  destruct c as [[] [] [] [] [] [] [] []]; vm_compute; reflexivity.
Qed.

Lemma upper_ascii_not_lower (c : ascii) :
  Str.is_lower (Str.upper_ascii c) = false.
Proof.
  destruct c as [[] [] [] [] [] [] [] []]; vm_compute; reflexivity.
Qed.

Lemma upper_idem (s : string) : Str.upper (Str.upper s) = Str.upper s.
Proof.
  induction s as [|c s IH]; simpl; [reflexivity|].
  by rewrite upper_ascii_idem, IH.
Qed.

Lemma upper_app (s t : string) :
  Str.upper (s +:+ t) = Str.upper s +:+ Str.upper t.
Proof.
  induction s as [|c s IH]; simpl; [reflexivity|]. by rewrite IH.
Qed.

Lemma no_lower_upper (s : string) : Str.no_lower (Str.upper s) = true.
Proof.
  induction s as [|c s IH]; simpl; [reflexivity|].
  by rewrite upper_ascii_not_lower, IH.
Qed.

Lemma no_lower_app (s t : string) :
  Str.no_lower (s +:+ t) = Str.no_lower s && Str.no_lower t.
Proof.
  induction s as [|c s IH]; simpl; [reflexivity|].
  by rewrite IH, andb_assoc.
Qed.

(** ** The validator *)

Section Validator.

Context (g_name : option string).

Lemma count_fold_unnamed (x_functionals l : Dict.t XParams) (n : nat) :
  Dict.has_key "use_libxc" x_functionals = false ->
  fold_left (count_step x_functionals) l (Ok n) = Ok n.
Proof.
  intros Hno. induction l as [|item l IH]; [reflexivity|].
  change (fold_left (count_step x_functionals) l
            (count_step x_functionals (Ok n) item) = Ok n).
  assert (count_step x_functionals (Ok n) item = Ok n) as ->
    by (unfold count_step; simpl; by rewrite Hno).
  exact IH.
Qed.

(** Unless a component is itself called ["use_libxc"], the loop of
    lines 119-122 counts nothing, whatever the flags of the entries. *)
Lemma count_use_libxc_unnamed (x_functionals : Dict.t XParams) :
  Dict.has_key "use_libxc" x_functionals = false ->
  count_use_libxc x_functionals = Ok 0%nat.
Proof. apply count_fold_unnamed. Qed.

(** A bundled definition that also has ["x_functionals"] or ["x_hf"]
    reaches the raise statement for the duplicate exchange, whatever
    its correlation keys are. *)
Lemma check_duplicate_exchange (func : FunctionalSpec) (func_name : string) :
  is_Some (f_xc_functionals func) ->
  is_Some (f_x_functionals func) \/ is_Some (f_x_hf func) ->
  check_consistency g_name func func_name
  = raise_ValidationError g_name DuplicateExchangeSpec.
Proof.
  intros Hxc Hx. unfold check_consistency.
  rewrite (bool_decide_eq_true_2 _ Hxc).
  destruct Hx as [Hx|Hx]; rewrite (bool_decide_eq_true_2 _ Hx); simpl;
    [|rewrite orb_true_r]; by destruct g_name.
Qed.

(** A bundled definition without exchange keys and with
    ["c_functionals"] or ["c_mp2"] reaches the raise statement for the
    duplicate correlation. *)
Lemma check_duplicate_correlation (func : FunctionalSpec) (func_name : string) :
  is_Some (f_xc_functionals func) ->
  f_x_functionals func = None -> f_x_hf func = None ->
  is_Some (f_c_functionals func) \/ is_Some (f_c_mp2 func) ->
  check_consistency g_name func func_name
  = raise_ValidationError g_name DuplicateCorrelationSpec.
Proof.
  intros Hxc Hx Hhf Hc. unfold check_consistency.
  rewrite (bool_decide_eq_true_2 _ Hxc), Hx, Hhf. simpl.
  destruct Hc as [Hc|Hc]; rewrite (bool_decide_eq_true_2 _ Hc); simpl;
    [|rewrite orb_true_r]; by destruct g_name.
Qed.

(** A definition with none of ["xc_functionals"], ["x_functionals"]
    and ["x_hf"] reaches the raise statement for the missing exchange,
    whether or not it has correlation keys. *)
Lemma check_missing_exchange (func : FunctionalSpec) (func_name : string) :
  f_xc_functionals func = None ->
  f_x_functionals func = None -> f_x_hf func = None ->
  check_consistency g_name func func_name
  = raise_ValidationError g_name MissingExchangeSpec.
Proof.
  intros Hxc Hx Hhf. unfold check_consistency.
  rewrite Hxc, Hx, Hhf. simpl. by destruct g_name.
Qed.

(** A definition that is not bundled, has an exchange key and has
    neither ["c_functionals"] nor ["c_mp2"] reaches the raise
    statement for the missing correlation. *)
Lemma check_missing_correlation (func : FunctionalSpec) (func_name : string) :
  f_xc_functionals func = None ->
  is_Some (f_x_functionals func) \/ is_Some (f_x_hf func) ->
  f_c_functionals func = None -> f_c_mp2 func = None ->
  check_consistency g_name func func_name
  = raise_ValidationError g_name MissingCorrelationSpec.
Proof.
  intros Hxc Hx Hc Hmp. unfold check_consistency.
  rewrite Hxc, Hc, Hmp. simpl.
  destruct Hx as [Hx|Hx]; rewrite (bool_decide_eq_true_2 _ Hx); simpl;
    [|rewrite andb_false_r]; by destruct g_name.
Qed.

(** What a successful validation tells about the keys present. *)
Lemma check_consistency_ok (func : FunctionalSpec) (func_name : string) :
  check_consistency g_name func func_name = Ok tt ->
  match f_xc_functionals func with
  | Some _ =>
      f_x_functionals func = None /\ f_x_hf func = None /\
      f_c_functionals func = None /\ f_c_mp2 func = None
  | None =>
      (is_Some (f_x_functionals func) \/ is_Some (f_x_hf func)) /\
      (is_Some (f_c_functionals func) \/ is_Some (f_c_mp2 func))
  end.
Proof.
  unfold check_consistency.
  destruct (f_xc_functionals func), (f_x_functionals func), (f_x_hf func),
    (f_c_functionals func), (f_c_mp2 func); simpl;
    try (destruct g_name; discriminate); intros _;
    repeat split; eauto.
Qed.

(** With exchange components none of which is called ["use_libxc"],
    correlation given and no ["x_hf"], validation succeeds whatever
    the ["use_libxc"] flags of the components are. *)
Lemma check_consistency_ignores_flags (func : FunctionalSpec)
    (func_name : string) (x_functionals : Dict.t XParams) :
  f_xc_functionals func = None ->
  f_x_functionals func = Some x_functionals ->
  Dict.has_key "use_libxc" x_functionals = false ->
  f_x_hf func = None ->
  is_Some (f_c_functionals func) \/ is_Some (f_c_mp2 func) ->
  check_consistency g_name func func_name = Ok tt.
Proof.
  intros Hxc Hx Hno Hhf Hc. unfold check_consistency.
  rewrite Hxc, Hx, Hhf, (count_use_libxc_unnamed _ Hno). simpl.
  destruct Hc as [Hc|Hc]; rewrite (bool_decide_eq_true_2 _ Hc); simpl;
    [done|by rewrite andb_false_r].
Qed.

End Validator.

(** The seven kinds have seven different texts. *)
Lemma message_kind (k k' : ErrorKind) (functional : string) :
  message k functional = message k' functional -> k = k'.
Proof.
  destruct k, k'; try reflexivity; intros Heq; discriminate Heq.
Qed.

(** C3.  A functional whose two exchange components both carry
    ["use_libxc": True] passes [check_consistency]: no exception at
    all is raised, where the duplicate request for libxc parameters is
    expected.  The count of line 122 stays 0 because line 120 looks
    for the key ["use_libxc"] among the component ids. *)
Theorem check_consistency_accepts_two_hybrid
    (g_name : option string) (func_name : string) :
  check_consistency g_name Examples.two_hybrid func_name = Ok tt.
Proof. destruct g_name; reflexivity. Qed.

(** C2.  Two runs of [check_consistency] that do not end in the error
    kind of the violated rule.  With [name] unbound in the module, a
    functional with both ["xc_functionals"] and ["x_functionals"] ends
    in a [NameError], raised while the message of the
    [ValidationError] is formatted.  A functional with one component
    flagged ["use_libxc"] and with ["x_hf"] passes, whatever [name] is
    bound to. *)
Theorem check_consistency_misses_error_kinds :
  (forall func_name,
     check_consistency None Examples.xc_and_x func_name
     = Raise (NameError "name")) /\
  (forall g_name func_name,
     check_consistency g_name Examples.hybrid_and_x_hf func_name = Ok tt).
Proof.
  split; [reflexivity|]. intros g_name func_name.
  destruct g_name; reflexivity.
Qed.

(** C6.  Two runs of [check_consistency] against the documented order.
    A functional that violates the fifth rule (two components flagged
    ["use_libxc"]) and the seventh (["x_hf"] names a missing
    component) is stopped at the raise statement of the seventh, not
    of the fifth.  A functional with neither exchange nor correlation
    keys reaches the raise statement for the missing exchange, where,
    with [name] unbound in the module, a [NameError] is raised. *)
Theorem check_consistency_order_diverges :
  (forall g_name func_name,
     check_consistency g_name Examples.two_hybrid_unresolved func_name
     = raise_ValidationError g_name UnresolvedHybridReference) /\
  (forall n func_name,
     check_consistency None (Examples.bare n) func_name
     = Raise (NameError "name")).
Proof.
  split; [|reflexivity]. intros g_name func_name.
  destruct g_name; reflexivity.
Qed.

(** ** The constructor *)

Section ConstructorFacts.

Context (core : Core).

(** Components are added and texts are set without touching the
    exchange mixing of the composite. *)
Lemma x_fold_mixing (restricted : bool) (l : Dict.t XParams) (acc : XAcc) :
  let acc' := fold_left (x_step core restricted) l acc in
  sf_x_alpha (acc_sup acc') = sf_x_alpha (acc_sup acc) /\
  sf_x_beta (acc_sup acc') = sf_x_beta (acc_sup acc) /\
  sf_x_omega (acc_sup acc') = sf_x_omega (acc_sup acc).
Proof.
  revert acc. induction l as [|item l IH]; intros acc; simpl; [done|].
  destruct (IH (x_step core restricted acc item)) as (Ha & Hb & Ho).
  simpl in Ha, Hb, Ho. by rewrite Ha, Hb, Ho.
Qed.

Lemma c_fold_mixing (restricted : bool) (l : Dict.t CParams) (acc : XAcc) :
  let acc' := fold_left (c_step core restricted) l acc in
  sf_x_alpha (acc_sup acc') = sf_x_alpha (acc_sup acc) /\
  sf_x_beta (acc_sup acc') = sf_x_beta (acc_sup acc) /\
  sf_x_omega (acc_sup acc') = sf_x_omega (acc_sup acc).
Proof.
  revert acc. induction l as [|item l IH]; intros acc; simpl; [done|].
  destruct (IH (c_step core restricted acc item)) as (Ha & Hb & Ho).
  simpl in Ha, Hb, Ho. by rewrite Ha, Hb, Ho.
Qed.

Lemma c_mp2_mixing (c_mp2 : option CMP2) (sup : SuperFunctional) :
  let sup' := apply_c_mp2 c_mp2 sup in
  sf_x_alpha sup' = sf_x_alpha sup /\ sf_x_beta sup' = sf_x_beta sup /\
  sf_x_omega sup' = sf_x_omega sup.
Proof.
  destruct c_mp2 as [[[a|] [ss|] [os|]]|]; done.
Qed.

Lemma overrides_mixing (func : FunctionalSpec) (sup : SuperFunctional) :
  let sup' := apply_overrides func sup in
  sf_x_alpha sup' = sf_x_alpha sup /\ sf_x_beta sup' = sf_x_beta sup /\
  sf_x_omega sup' = sf_x_omega sup.
Proof.
  unfold apply_overrides.
  destruct (f_citation func), (f_description func); done.
Qed.

(** the accumulator that enters the block of lines 177-193 *)
Lemma composite_mixing (restricted : bool) (func : FunctionalSpec) :
  let acc0 := {| acc_sup := blank core; acc_citation := []; acc_descr := [];
                 acc_x_HF := {| ALPHA := 0; OMEGA := 0; BETA := 0 |} |} in
  let acc := match f_x_functionals func with
             | Some x_funcs => fold_left (x_step core restricted) x_funcs acc0
             | None => acc0
             end in
  let mixed := (apply_x_hf core restricted (f_x_hf func) (acc_x_HF acc)
                           (acc_sup acc)).1 in
  let sup := (build_composite core restricted func).1 in
  sf_x_alpha sup = sf_x_alpha mixed /\ sf_x_beta sup = sf_x_beta mixed /\
  sf_x_omega sup = sf_x_omega mixed.
Proof.
  intros acc0 acc mixed sup. subst sup mixed. unfold build_composite.
  fold acc0. fold acc.
  destruct (apply_x_hf core restricted (f_x_hf func) (acc_x_HF acc)
              (acc_sup acc)) as [sup x_hf] eqn:Hx. simpl.
  destruct (f_c_functionals func) as [c_funcs|].
  - destruct (c_mp2_mixing (f_c_mp2 func)
      (acc_sup (fold_left (c_step core restricted) c_funcs
                  (with_sup (fun _ => sup) acc)))) as (Ha & Hb & Ho).
    destruct (c_fold_mixing restricted c_funcs (with_sup (fun _ => sup) acc))
      as (Ha' & Hb' & Ho').
    simpl in *. by rewrite Ha, Hb, Ho, Ha', Hb', Ho'.
  - destruct (c_mp2_mixing (f_c_mp2 func) sup) as (Ha & Hb & Ho).
    simpl in *. by rewrite Ha, Hb, Ho.
Qed.

(** The run of the constructor on a validated definition that has no
    ["xc_functionals"]. *)
Lemma build_from_composite (g_name : option string) (func : FunctionalSpec)
    (name : string) (npoints deriv : Z) (restricted : bool) :
  check_consistency g_name func name = Ok tt ->
  f_xc_functionals func = None ->
  build_from core g_name func name npoints deriv restricted
  = let built := build_composite core restricted func in
    (Ok (finalize name npoints deriv (apply_overrides built.2 built.1),
         (take_dispersion (f_dispersion built.2)).1),
     with_dispersion (take_dispersion (f_dispersion built.2)).2 built.2).
Proof.
  intros Hok Hxc. unfold build_from. rewrite Hok, Hxc.
  destruct (build_composite core restricted func) as [sup func'].
  simpl. by destruct (take_dispersion (f_dispersion func')).
Qed.

End ConstructorFacts.


Lemma finalize_mixing (name : string) (npoints deriv : Z)
    (sup : SuperFunctional) :
  let sup' := finalize name npoints deriv sup in
  sf_x_alpha sup' = sf_x_alpha sup /\ sf_x_beta sup' = sf_x_beta sup /\
  sf_x_omega sup' = sf_x_omega sup.
Proof. done. Qed.

(** The exchange mixing of the object that the constructor returns for
    a validated definition without ["xc_functionals"] is the one that
    the block of lines 177-193 leaves. *)
Lemma build_mixing (core : Core) (g_name : option string) (w : World)
    (name : string) (npoints deriv : Z) (restricted : bool)
    (ref : nat) (func : FunctionalSpec) :
  functionals w !! name = Some ref ->
  heap w !! ref = Some func ->
  check_consistency g_name func name = Ok tt ->
  f_xc_functionals func = None ->
  exists sup dispersion w',
    build_superfunctional_from_dictionary core g_name w name npoints deriv
      restricted = (Ok (sup, dispersion), w') /\
    let acc0 := {| acc_sup := blank core; acc_citation := [];
                   acc_descr := [];
                   acc_x_HF := {| ALPHA := 0; OMEGA := 0; BETA := 0 |} |} in
    let acc := match f_x_functionals func with
               | Some x_funcs =>
                   fold_left (x_step core restricted) x_funcs acc0
               | None => acc0
               end in
    let mixed := (apply_x_hf core restricted (f_x_hf func) (acc_x_HF acc)
                             (acc_sup acc)).1 in
    sf_x_alpha sup = sf_x_alpha mixed /\ sf_x_beta sup = sf_x_beta mixed /\
    sf_x_omega sup = sf_x_omega mixed /\
    sf_x_alpha (acc_sup acc) = sf_x_alpha (blank core) /\
    sf_x_beta (acc_sup acc) = sf_x_beta (blank core) /\
    sf_x_omega (acc_sup acc) = sf_x_omega (blank core).
Proof.
  intros Hreg Hheap Hok Hxc.
  unfold build_superfunctional_from_dictionary. rewrite Hreg, Hheap.
  rewrite (build_from_composite core g_name func name npoints deriv
             restricted Hok Hxc).
  cbv zeta. eexists _, _, _. split; [reflexivity|].
  destruct (composite_mixing core restricted func) as (Ha & Hb & Ho).
  destruct (overrides_mixing (build_composite core restricted func).2
              (build_composite core restricted func).1) as (Ha' & Hb' & Ho').
  cbv zeta in Ha, Hb, Ho, Ha', Hb', Ho'.
  destruct (finalize_mixing name npoints deriv
              (apply_overrides (build_composite core restricted func).2
                 (build_composite core restricted func).1))
    as (Ha'' & Hb'' & Ho'').
  cbv zeta in Ha'', Hb'', Ho''.
  rewrite Ha'', Hb'', Ho'', Ha', Hb', Ho', Ha, Hb, Ho.
  repeat split; destruct (f_x_functionals func) as [x_funcs|]; try done;
    apply (x_fold_mixing core restricted x_funcs).
Qed.


(** *** The candidate coefficients *)

Lemma x_fold_no_request (core : Core) (restricted : bool)
    (l : Dict.t XParams) (acc : XAcc) :
  Forall (fun item => requests_libxc item.2 = false) l ->
  acc_x_HF (fold_left (x_step core restricted) l acc) = acc_x_HF acc.
Proof.
  intros Hl. revert acc.
  induction Hl as [|item l Hitem _ IH]; intros acc; simpl; [done|].
  rewrite IH. simpl. by rewrite Hitem.
Qed.

Lemma x_fold_last_request (core : Core) (restricted : bool)
    (pre post : Dict.t XParams) (x_key : string) (x_params : XParams)
    (acc : XAcc) :
  requests_libxc x_params = true ->
  Forall (fun item => requests_libxc item.2 = false) post ->
  acc_x_HF (fold_left (x_step core restricted)
              (pre ++ (x_key, x_params) :: post) acc)
  = query_libxc core (LibXCFunctional_new core ("XC_" +:+ x_key) restricted)
      "XC_HYB_CAM_COEF".
Proof.
  intros Hreq Hpost. rewrite fold_left_app. simpl.
  rewrite (x_fold_no_request core restricted post _ Hpost).
  simpl. by rewrite Hreq.
Qed.

(** C8.  For a validated definition without ["x_hf"], in the branch
    that builds a blank composite (no ["xc_functionals"]), the
    returned object has
    alpha = ALPHA + BETA, beta = ALPHA - BETA and omega = OMEGA of the
    coefficients queried for the last exchange component flagged
    ["use_libxc"], which is the only one when there is at most one;
    when no component is flagged, all three are 0.0. *)
Theorem build_candidate_mixing (core : Core) (g_name : option string)
    (w : World) (name : string) (npoints deriv : Z) (restricted : bool)
    (ref : nat) (func : FunctionalSpec) :
  functionals w !! name = Some ref ->
  heap w !! ref = Some func ->
  f_x_hf func = None ->
  f_xc_functionals func = None ->
  check_consistency g_name func name = Ok tt ->
  exists x_funcs sup dispersion w',
    f_x_functionals func = Some x_funcs /\
    build_superfunctional_from_dictionary core g_name w name npoints deriv
      restricted = (Ok (sup, dispersion), w') /\
    (Forall (fun item => requests_libxc item.2 = false) x_funcs ->
     sf_x_alpha sup = 0%float /\ sf_x_beta sup = 0%float /\
     sf_x_omega sup = 0%float) /\
    (forall (pre post : Dict.t XParams) (x_key : string) (x_params : XParams),
       x_funcs = (pre ++ (x_key, x_params) :: post)%list ->
       requests_libxc x_params = true ->
       Forall (fun item => requests_libxc item.2 = false) post ->
       let x_HF :=
         query_libxc core
           (LibXCFunctional_new core ("XC_" +:+ x_key) restricted)
           "XC_HYB_CAM_COEF" in
       sf_x_alpha sup = (ALPHA x_HF + BETA x_HF)%float /\
       sf_x_beta sup = (ALPHA x_HF - BETA x_HF)%float /\
       sf_x_omega sup = OMEGA x_HF).
Proof.
  intros Hreg Hheap Hhf Hxc Hok.
  destruct (build_mixing core g_name w name npoints deriv restricted ref func
              Hreg Hheap Hok Hxc)
    as (sup & dispersion & w' & Hrun & Ha & Hb & Ho & _).
  pose proof (check_consistency_ok g_name func name Hok) as Hkeys.
  rewrite Hxc, Hhf in Hkeys.
  destruct Hkeys as [[[x_funcs Hx]|[? ?]] _]; [|done].
  exists x_funcs, sup, dispersion, w'.
  rewrite Hx, Hhf in Ha, Hb, Ho. simpl in Ha, Hb, Ho.
  split; [exact Hx|]. split; [exact Hrun|]. split.
  - intros Hnone. rewrite Ha, Hb, Ho.
    rewrite (x_fold_no_request core restricted x_funcs _ Hnone). done.
  - intros pre post x_key x_params -> Hreq Hpost. rewrite Ha, Hb, Ho.
    rewrite (x_fold_last_request core restricted pre post x_key x_params _
               Hreq Hpost). done.
Qed.

(** *** The bundled branch *)

Lemma xc_name_of_last {V} (earlier : list (string * V)) (xc_key : string)
    (params : V) (init : option string) :
  fold_left (fun _ xc_key => Some ("XC_" +:+ xc_key))
            (Dict.keys (earlier ++ [(xc_key, params)])%list) init
  = Some ("XC_" +:+ xc_key).
Proof.
  unfold Dict.keys. rewrite fmap_app, fold_left_app. reflexivity.
Qed.

(** An empty ["xc_functionals"] leaves [xc_name] unbound. *)
Lemma build_bundled_empty (core : Core) (name : string) (restricted : bool) :
  build_bundled core name restricted [] = Raise (UnboundLocalError "xc_name").
Proof. reflexivity. Qed.

(** C9.  For a validated definition with ["xc_functionals"], the
    returned object is the one that [XC_build] makes from the last
    component id of ["xc_functionals"], and from no other, with its
    description, the overrides and the final settings applied. *)
Theorem build_bundled_uses_last_component (core : Core)
    (g_name : option string) (w : World) (name : string) (npoints deriv : Z)
    (restricted : bool) (ref : nat) (func : FunctionalSpec)
    (earlier : Dict.t (Dict.t float)) (xc_key : string)
    (params : Dict.t float) :
  functionals w !! name = Some ref ->
  heap w !! ref = Some func ->
  f_xc_functionals func = Some (earlier ++ [(xc_key, params)])%list ->
  check_consistency g_name func name = Ok tt ->
  exists w',
    build_superfunctional_from_dictionary core g_name w name npoints deriv
      restricted
    = (let made := XC_build core ("XC_" +:+ xc_key) restricted in
       Ok (finalize name npoints deriv
             (apply_overrides func
                (Sup.set_description (bundled_description name made) made)),
           (take_dispersion (f_dispersion func)).1),
       w').
Proof.
  intros Hreg Hheap Hxc Hok.
  unfold build_superfunctional_from_dictionary. rewrite Hreg, Hheap.
  unfold build_from. rewrite Hok, Hxc. unfold build_bundled, xc_name_of.
  rewrite xc_name_of_last. cbv zeta.
  destruct (take_dispersion (f_dispersion func)) as [dispersion d].
  eexists. reflexivity.
Qed.

(** *** What a call writes *)

Lemma with_x_hf_id (func : FunctionalSpec) : with_x_hf (f_x_hf func) func = func.
Proof. by destruct func. Qed.

Lemma with_dispersion_id (func : FunctionalSpec) :
  with_dispersion (f_dispersion func) func = func.
Proof. by destruct func. Qed.

Lemma fill_alpha_id (x_params : XHF) :
  is_Some (hf_alpha x_params) -> fill_alpha x_params = x_params.
Proof. intros [a Ha]. unfold fill_alpha. by rewrite Ha. Qed.

Lemma fill_citation_id (d_params : Dispersion) :
  is_Some (disp_citation d_params) -> fill_citation d_params = d_params.
Proof. intros [c Hc]. unfold fill_citation. by rewrite Hc. Qed.

Lemma take_dispersion_state (dispersion : option Dispersion) :
  (take_dispersion dispersion).2 = fill_citation <$> dispersion.
Proof. by destruct dispersion. Qed.

Lemma apply_x_hf_state (core : Core) (restricted : bool)
    (x_hf : option XHF) (x_HF : CamCoef) (sup : SuperFunctional) :
  (apply_x_hf core restricted x_hf x_HF sup).2 = fill_alpha <$> x_hf.
Proof. by destruct x_hf. Qed.

Lemma build_composite_state (core : Core) (restricted : bool)
    (func : FunctionalSpec) :
  (build_composite core restricted func).2
  = with_x_hf (fill_alpha <$> f_x_hf func) func.
Proof.
  unfold build_composite.
  match goal with
  | |- context [apply_x_hf ?c ?r ?x ?h ?s] =>
      pose proof (apply_x_hf_state c r x h s) as Hst;
      destruct (apply_x_hf c r x h s) as [sup x_hf']
  end.
  simpl in *. by rewrite Hst.
Qed.

(** The functional dictionary after a call: as it was when the call
    raised, and with the two defaults stored when it returned. *)
Lemma build_from_state (core : Core) (g_name : option string)
    (func : FunctionalSpec) (name : string) (npoints deriv : Z)
    (restricted : bool) :
  let run := build_from core g_name func name npoints deriv restricted in
  match run.1 with
  | Raise _ => run.2 = func
  | Ok _ =>
      run.2 = with_dispersion (fill_citation <$> f_dispersion func)
                (with_x_hf (fill_alpha <$> f_x_hf func) func)
  end.
Proof.
  unfold build_from.
  destruct (check_consistency g_name func name) as [[]|e] eqn:Hok; [|done].
  pose proof (check_consistency_ok g_name func name Hok) as Hkeys.
  destruct (f_xc_functionals func) as [xc|] eqn:Hxc.
  - destruct Hkeys as (_ & Hhf & _).
    assert (with_x_hf (fill_alpha <$> f_x_hf func) func = func) as ->
      by (rewrite Hhf; simpl; rewrite <- Hhf; apply with_x_hf_id).
    destruct (build_bundled core name restricted xc); [|done].
    rewrite <- take_dispersion_state.
    by destruct (take_dispersion (f_dispersion func)) as [dispersion d].
  - pose proof (build_composite_state core restricted func) as Hst.
    destruct (build_composite core restricted func) as [sup func'].
    simpl in Hst. subst func'.
    change (f_dispersion (with_x_hf (fill_alpha <$> f_x_hf func) func))
      with (f_dispersion func).
    rewrite <- take_dispersion_state.
    by destruct (take_dispersion (f_dispersion func)) as [dispersion d].
Qed.

Lemma build_unregistered (core : Core) (g_name : option string) (w : World)
    (name : string) (npoints deriv : Z) (restricted : bool) :
  functionals w !! name = None ->
  build_superfunctional_from_dictionary core g_name w name npoints deriv
    restricted = (Raise (KeyError name), w).
Proof.
  intros Hreg. unfold build_superfunctional_from_dictionary. by rewrite Hreg.
Qed.

(** C4, as the code has it.  [check_consistency] is a function of the
    dictionary it is given and writes nowhere.  A call of the
    constructor leaves the alias table as it was, and every functional
    dictionary as it was, except the one that [functionals[name]]
    refers to when its ["dispersion"] has no ["citation"]: that one
    may come out with ["citation"] set to [False] and is otherwise the
    same.  This is for definitions whose ["x_hf"], if any, has an
    ["alpha"]. *)
Theorem build_registry_frame (core : Core) (g_name : option string)
    (w : World) (name : string) (npoints deriv : Z) (restricted : bool) :
  (forall ref func x_hf,
     functionals w !! name = Some ref -> heap w !! ref = Some func ->
     f_x_hf func = Some x_hf -> is_Some (hf_alpha x_hf)) ->
  let w' := (build_superfunctional_from_dictionary core g_name w name
               npoints deriv restricted).2 in
  functionals w' = functionals w /\
  forall ref : nat,
    heap w' !! ref = heap w !! ref \/
    functionals w !! name = Some ref /\
    exists func d_params,
      heap w !! ref = Some func /\
      f_dispersion func = Some d_params /\
      disp_citation d_params = None /\
      heap w' !! ref
      = Some (with_dispersion (Some (fill_citation d_params)) func).
Proof.
  intros Halpha. unfold build_superfunctional_from_dictionary.
  destruct (functionals w !! name) as [target|] eqn:Hreg; [|by split; auto].
  destruct (heap w !! target) as [func|] eqn:Hheap; [|by split; auto].
  pose proof (build_from_state core g_name func name npoints deriv restricted)
    as Hst.
  destruct (build_from core g_name func name npoints deriv restricted)
    as [r func'].
  simpl in *. split; [done|]. intros ref.
  destruct (decide (ref = target)) as [->|Hne];
    [|left; by apply list_lookup_insert_ne].
  assert (target < length (heap w))%nat as Hlt by (by eapply lookup_lt_Some).
  rewrite list_lookup_insert_eq by done.
  assert (with_x_hf (fill_alpha <$> f_x_hf func) func = func) as Hx.
  { destruct (f_x_hf func) as [x_hf|] eqn:Hhf.
    - simpl. rewrite fill_alpha_id by eauto. by rewrite <- Hhf, with_x_hf_id.
    - simpl. by rewrite <- Hhf, with_x_hf_id. }
  destruct r as [v|e]; [|left; by rewrite Hst, Hheap].
  rewrite Hx in Hst.
  destruct (f_dispersion func) as [d_params|] eqn:Hd.
  - destruct (disp_citation d_params) as [c|] eqn:Hc.
    + left. rewrite Hst. simpl. rewrite fill_citation_id by eauto.
      by rewrite <- Hd, with_dispersion_id.
    + right. split; [done|]. exists func, d_params. by rewrite Hst.
  - left. rewrite Hst. simpl. by rewrite <- Hd, with_dispersion_id.
Qed.

(** C4, refuted as stated.  In the world that the import leaves, the
    variant registered under ["B88-D3ZERO"] has a dispersion dictionary
    without ["citation"], and the definition registered under ["BO"]
    has an ["x_hf"] without ["alpha"]; after one call of the
    constructor on each name the registry holds ["citation": False]
    and ["alpha": 0.0] in their place. *)
Lemma build_writes_to_registry :
  let before := Examples.world in
  let after_d3 := (build_superfunctional_from_dictionary Examples.core None
                     before "B88-D3ZERO" 500 1 true).2 in
  let after_bo := (build_superfunctional_from_dictionary Examples.core None
                     before "BO" 500 1 true).2 in
  (functionals before !! "B88-D3ZERO" = Some 5%nat /\
   ((((heap before) !! 5%nat) ≫= f_dispersion) ≫= disp_citation) = None /\
   ((((heap after_d3) !! 5%nat) ≫= f_dispersion) ≫= disp_citation) = Some CitFalse /\
   heap after_d3 <> heap before) /\
  (functionals before !! "BO" = Some 2%nat /\
   ((((heap before) !! 2%nat) ≫= f_x_hf) ≫= hf_alpha) = None /\
   ((((heap after_bo) !! 2%nat) ≫= f_x_hf) ≫= hf_alpha) = Some 0%float /\
   heap after_bo <> heap before).
Proof.
  cbv zeta. repeat split; try (vm_compute; reflexivity).
  - intros Heq.
    apply (f_equal (fun h : list FunctionalSpec => ((h !! 5%nat) ≫= f_dispersion) ≫= disp_citation))
      in Heq.
    vm_compute in Heq. discriminate.
  - intros Heq.
    apply (f_equal (fun h : list FunctionalSpec => ((h !! 2%nat) ≫= f_x_hf) ≫= hf_alpha)) in Heq.
    vm_compute in Heq. discriminate.
Qed.

(** ** The registry builder *)

Lemma register_lookup_other (key_of : string -> string) (target : nat)
    (aliases : list string) (fs : gmap string nat) (k : string) :
  k ∉ map key_of aliases ->
  register key_of target aliases fs !! k = fs !! k.
Proof.
  unfold register. revert fs.
  induction aliases as [|a aliases IH]; intros fs Hk; simpl; [done|].
  simpl in Hk. apply not_elem_of_cons in Hk as [Hne Hk].
  rewrite IH by done. by apply lookup_insert_ne.
Qed.

Lemma register_lookup_key (key_of : string -> string) (target : nat)
    (aliases : list string) (fs : gmap string nat) (k : string) :
  k ∈ map key_of aliases ->
  register key_of target aliases fs !! k = Some target.
Proof.
  unfold register. revert fs.
  induction aliases as [|a aliases IH]; intros fs Hk; simpl.
  - by apply elem_of_nil in Hk.
  - simpl in Hk. destruct (decide (k ∈ map key_of aliases)) as [Hin|Hout].
    + by apply IH.
    + apply elem_of_cons in Hk as [->|Hin]; [|done].
      fold (register key_of target aliases (<[key_of a:=target]> fs)).
      rewrite register_lookup_other by done. apply lookup_insert_eq.
Qed.

Lemma register_lookup (key_of : string -> string) (target : nat)
    (aliases : list string) (fs : gmap string nat) (k : string) :
  register key_of target aliases fs !! k
  = if decide (k ∈ map key_of aliases) then Some target else fs !! k.
Proof.
  case_decide; [by apply register_lookup_key|by apply register_lookup_other].
Qed.

Lemma aliases_upper (functional : FunctionalSpec) (a : string) :
  a ∈ get_functional_aliases functional -> exists s, a = Str.upper s.
Proof.
  unfold get_functional_aliases. destruct (f_alias functional) as [l|].
  - intros [Hin|Hin]%elem_of_app.
    + apply list_elem_of_fmap in Hin as (s & -> & _). eauto.
    + apply list_elem_of_singleton in Hin. eauto.
  - intros Hin%list_elem_of_singleton. eauto.
Qed.

Lemma name_is_alias (functional : FunctionalSpec) :
  Str.upper (f_name functional) ∈ get_functional_aliases functional.
Proof.
  unfold get_functional_aliases. destruct (f_alias functional); set_solver.
Qed.

Lemma alias_is_alias (functional : FunctionalSpec) (l : list string)
    (s : string) :
  f_alias functional = Some l -> s ∈ l ->
  Str.upper s ∈ get_functional_aliases functional.
Proof.
  intros Hl Hs. unfold get_functional_aliases. rewrite Hl.
  apply elem_of_app. left. by apply list_elem_of_fmap_2.
Qed.

(** *** Composite keys *)

Lemma dash_free_no_split (s x y : string) :
  Str.dash_free s = true -> s <> x +:+ "-" +:+ y.
Proof.
  revert x. induction s as [|c s IH]; intros x Hfree Heq.
  - destruct x; discriminate.
  - simpl in Hfree. apply andb_true_iff in Hfree as [Hc Hs].
    destruct x as [|c' x]; simpl in Heq.
    + injection Heq as -> _. discriminate.
    + injection Heq as _ Heq. by apply (IH x).
Qed.

(** A composite key splits in one way only at its last hyphen. *)
Lemma composite_split (a a' s s' : string) :
  Str.dash_free s = true -> Str.dash_free s' = true ->
  a +:+ "-" +:+ s = a' +:+ "-" +:+ s' -> a = a' /\ s = s'.
Proof.
  intros Hs Hs'. revert a'.
  induction a as [|c a IH]; intros [|c' a'] Heq; simpl in Heq.
  - by injection Heq.
  - injection Heq as _ Heq. by apply dash_free_no_split in Heq.
  - injection Heq as _ Heq. symmetry in Heq.
    by apply dash_free_no_split in Heq.
  - injection Heq as -> Heq. destruct (IH a' Heq) as [-> ->]. done.
Qed.

Lemma short_names_dash_free :
  Forall (fun item : string * string =>
            Str.dash_free (Str.upper item.1) = true) dispersion_names.
Proof. repeat constructor. Qed.

Lemma short_names_scheme :
  Forall (fun item : string * string =>
     Forall (fun item' : string * string =>
               Str.upper item.1 = Str.upper item'.1 -> item.2 = item'.2)
            dispersion_names) dispersion_names.
Proof.
  repeat constructor; simpl; intros Heq; try reflexivity; discriminate Heq.
Qed.

(** Two short names that give the same composite key stand for the
    same scheme. *)
Lemma composite_key_scheme (s t s' t' a a' : string) :
  (s, t) ∈ dispersion_names -> (s', t') ∈ dispersion_names ->
  composite_key s a = composite_key s' a' -> t = t'.
Proof.
  intros Hs Hs' Heq. unfold composite_key in Heq.
  pose proof short_names_dash_free as Hfree.
  rewrite Forall_forall in Hfree.
  apply composite_split in Heq as [_ Heq];
    [|by apply (Hfree (s, t))|by apply (Hfree (s', t'))].
  pose proof short_names_scheme as Hsch. rewrite Forall_forall in Hsch.
  specialize (Hsch (s, t) Hs). rewrite Forall_forall in Hsch.
  exact (Hsch (s', t') Hs' Heq).
Qed.

(** *** One row, one table, one short name *)

Section Expansion.

Context (parent : FunctionalSpec) (aliases : list string).

Lemma row_step_prefix (dn dt : string) (w : World) (item : string * CoeffRow) :
  heap w `prefix_of` heap (row_step parent aliases dn dt w item).
Proof.
  unfold row_step. case_bool_decide; simpl; [|done]. by apply prefix_app_r.
Qed.

Lemma row_step_lookup (dn dt : string) (w : World) (item : string * CoeffRow)
    (k : string) :
  functionals (row_step parent aliases dn dt w item) !! k
  = if bool_decide (Str.upper item.1 ∈ aliases) then
      if decide (k ∈ map (composite_key dn) aliases)
      then Some (length (heap w)) else functionals w !! k
    else functionals w !! k.
Proof.
  unfold row_step. case_bool_decide; simpl; [|done]. apply register_lookup.
Qed.

Lemma variant_prefix (w w' : World) (k t : string) :
  heap w `prefix_of` heap w' ->
  functionals w' !! k = functionals w !! k ->
  resolves_to_variant w k parent t -> resolves_to_variant w' k parent t.
Proof.
  intros Hpre Hk (ref & row & Hreg & Hheap). exists ref, row.
  split; [congruence|]. by eapply prefix_lookup_Some.
Qed.

Lemma row_step_keeps (dn dt s t a : string) (w : World)
    (item : string * CoeffRow) :
  (dn, dt) ∈ dispersion_names -> (s, t) ∈ dispersion_names ->
  resolves_to_variant w (composite_key s a) parent t ->
  resolves_to_variant (row_step parent aliases dn dt w item)
    (composite_key s a) parent t.
Proof.
  intros Hdn Hs Hres.
  pose proof (row_step_lookup dn dt w item (composite_key s a)) as Hk.
  pose proof (row_step_prefix dn dt w item) as Hpre.
  destruct (bool_decide (Str.upper item.1 ∈ aliases)) eqn:Hmatch;
    [|by eapply variant_prefix].
  destruct (decide (composite_key s a ∈ map (composite_key dn) aliases))
    as [Hin|Hout]; [|by eapply variant_prefix].
  apply list_elem_of_fmap in Hin as (a' & Heq & _).
  assert (t = dt) as -> by (by eapply composite_key_scheme).
  exists (length (heap w)), item.2. split; [done|].
  unfold row_step. rewrite Hmatch. simpl.
  by rewrite lookup_app_r, Nat.sub_diag.
Qed.

Lemma row_step_makes (dn dt a : string) (w : World)
    (item : string * CoeffRow) :
  Str.upper item.1 ∈ aliases -> a ∈ aliases ->
  resolves_to_variant (row_step parent aliases dn dt w item)
    (composite_key dn a) parent dt.
Proof.
  intros Hmatch Ha. exists (length (heap w)), item.2.
  rewrite row_step_lookup. unfold row_step.
  rewrite (bool_decide_eq_true_2 _ Hmatch). simpl.
  rewrite decide_True by (by apply list_elem_of_fmap_2).
  split; [done|]. by rewrite lookup_app_r, Nat.sub_diag.
Qed.

Lemma table_prefix (dn dt : string) (table : Dict.t CoeffRow) (w : World) :
  heap w `prefix_of`
    heap (fold_left (row_step parent aliases dn dt) table w).
Proof.
  revert w. induction table as [|item table IH]; intros w; simpl; [done|].
  etrans; [apply (row_step_prefix dn dt w item)|apply IH].
Qed.

Lemma table_keeps (dn dt s t a : string) (table : Dict.t CoeffRow)
    (w : World) :
  (dn, dt) ∈ dispersion_names -> (s, t) ∈ dispersion_names ->
  resolves_to_variant w (composite_key s a) parent t ->
  resolves_to_variant (fold_left (row_step parent aliases dn dt) table w)
    (composite_key s a) parent t.
Proof.
  intros Hdn Hs. revert w.
  induction table as [|item table IH]; intros w Hres; simpl; [done|].
  apply IH. by apply row_step_keeps.
Qed.

Lemma table_makes (dn dt a : string) (table : Dict.t CoeffRow) (w : World) :
  (dn, dt) ∈ dispersion_names ->
  Exists (fun item : string * CoeffRow => Str.upper item.1 ∈ aliases) table ->
  a ∈ aliases ->
  resolves_to_variant (fold_left (row_step parent aliases dn dt) table w)
    (composite_key dn a) parent dt.
Proof.
  intros Hdn Hex Ha. revert w.
  induction Hex as [item table Hmatch|item table _ IH]; intros w; simpl.
  - apply table_keeps; [done..|]. by apply row_step_makes.
  - apply IH.
Qed.

(** a table without a matching row, or a key that is not composite for
    this short name, leaves the key alone *)
Lemma table_lookup_other (dn dt : string) (table : Dict.t CoeffRow)
    (w : World) (k : string) :
  k ∉ (if existsb (fun row : string * CoeffRow =>
                     bool_decide (Str.upper row.1 ∈ aliases)) table
       then map (composite_key dn) aliases else []) ->
  functionals (fold_left (row_step parent aliases dn dt) table w) !! k
  = functionals w !! k.
Proof.
  revert w. induction table as [|item table IH]; intros w Hk; simpl; [done|].
  simpl in Hk. rewrite IH.
  - rewrite row_step_lookup.
    destruct (bool_decide (Str.upper item.1 ∈ aliases)); [|done].
    simpl in Hk. by rewrite decide_False.
  - destruct (bool_decide (Str.upper item.1 ∈ aliases)); simpl in Hk.
    + destruct (existsb _ table); [done|apply not_elem_of_nil].
    + done.
Qed.

End Expansion.

(** *** One functional *)

Section OneFunctional.

Context (dashcoeff : Dict.t (Dict.t CoeffRow)).
Context (parent : FunctionalSpec) (aliases : list string).

Lemma names_fold_raise (names : Dict.t string) (e : PyExn) :
  fold_left (name_step dashcoeff parent aliases) names (Raise e) = Raise e.
Proof. induction names as [|item names IH]; simpl; [done|exact IH]. Qed.

Lemma name_step_ok (item : string * string) (w : World) :
  name_step dashcoeff parent aliases (Ok w) item
  = match Dict.get item.2 dashcoeff with
    | None => Raise (KeyError item.2)
    | Some table =>
        Ok (fold_left (row_step parent aliases item.1 item.2) table w)
    end.
Proof. reflexivity. Qed.

Lemma names_fold_cons (item : string * string) (names : Dict.t string)
    (w w' : World) :
  fold_left (name_step dashcoeff parent aliases) (item :: names) (Ok w)
  = Ok w' ->
  exists table,
    Dict.get item.2 dashcoeff = Some table /\
    fold_left (name_step dashcoeff parent aliases) names
      (Ok (fold_left (row_step parent aliases item.1 item.2) table w))
    = Ok w'.
Proof.
  cbn [fold_left]. rewrite name_step_ok.
  destruct (Dict.get item.2 dashcoeff) as [table|]; [eauto|].
  by rewrite names_fold_raise.
Qed.

(** what every table preserves, the whole loop of line 84 preserves *)
Lemma names_fold_ind (P : World -> Prop) (names : Dict.t string)
    (w w' : World) :
  (forall item table w0,
     item ∈ names -> Dict.get item.2 dashcoeff = Some table -> P w0 ->
     P (fold_left (row_step parent aliases item.1 item.2) table w0)) ->
  P w ->
  fold_left (name_step dashcoeff parent aliases) names (Ok w) = Ok w' ->
  P w'.
Proof.
  revert w. induction names as [|item names IH]; intros w Hstep Hw Hrun.
  - simpl in Hrun. by injection Hrun as <-.
  - apply names_fold_cons in Hrun as (table & Hget & Hrun).
    eapply IH; [|eapply (Hstep item table w); eauto; by left|exact Hrun].
    intros item' table' w0 Hin. apply Hstep. by right.
Qed.

Lemma names_total (names : Dict.t string) (w : World) :
  Forall (fun item : string * string => is_Some (Dict.get item.2 dashcoeff))
         names ->
  exists w', fold_left (name_step dashcoeff parent aliases) names (Ok w)
             = Ok w'.
Proof.
  intros Hall. revert w.
  induction Hall as [|item names [table Hget] _ IH]; intros w;
    cbn [fold_left]; [eauto|].
  rewrite name_step_ok, Hget. apply IH.
Qed.

Lemma names_prefix (names : Dict.t string) (w w' : World) :
  fold_left (name_step dashcoeff parent aliases) names (Ok w) = Ok w' ->
  heap w `prefix_of` heap w'.
Proof.
  apply (names_fold_ind (fun w0 => heap w `prefix_of` heap w0)); [|done].
  intros item table w0 _ _ Hpre. etrans; [exact Hpre|apply table_prefix].
Qed.

Lemma names_keeps (names : Dict.t string) (w w' : World) (s t a : string) :
  names ⊆ dispersion_names -> (s, t) ∈ dispersion_names ->
  resolves_to_variant w (composite_key s a) parent t ->
  fold_left (name_step dashcoeff parent aliases) names (Ok w) = Ok w' ->
  resolves_to_variant w' (composite_key s a) parent t.
Proof.
  intros Hsub Hs.
  apply (names_fold_ind
           (fun w0 => resolves_to_variant w0 (composite_key s a) parent t)).
  intros [dn dt] table w0 Hin _ Hres. apply table_keeps; auto.
Qed.

Lemma names_makes (names : Dict.t string) (w w' : World) (s t a : string)
    (table : Dict.t CoeffRow) :
  names ⊆ dispersion_names -> (s, t) ∈ names ->
  Dict.get t dashcoeff = Some table ->
  Exists (fun item : string * CoeffRow => Str.upper item.1 ∈ aliases) table ->
  a ∈ aliases ->
  fold_left (name_step dashcoeff parent aliases) names (Ok w) = Ok w' ->
  resolves_to_variant w' (composite_key s a) parent t.
Proof.
  intros Hsub Hin Hget Hex Ha. revert w.
  induction names as [|item names IH]; intros w Hrun.
  - by apply elem_of_nil in Hin.
  - apply names_fold_cons in Hrun as (table' & Hget' & Hrun).
    assert (names ⊆ dispersion_names) as Hsub'
      by (intros x Hx; apply Hsub; by right).
    destruct (decide ((s, t) ∈ names)) as [Hlater|Hnow].
    + by eapply IH.
    + apply elem_of_cons in Hin as [<-|Hin]; [|done]. simpl in *.
      assert (table' = table) as -> by congruence.
      eapply names_keeps; [exact Hsub'|set_solver| |exact Hrun].
      apply table_makes; [set_solver|done..].
Qed.

Lemma names_lookup_other (names : Dict.t string) (w w' : World) (k : string) :
  k ∉ flat_map
        (fun item : string * string =>
           match Dict.get item.2 dashcoeff with
           | None => []
           | Some table =>
               if existsb (fun row : string * CoeffRow =>
                             bool_decide (Str.upper row.1 ∈ aliases)) table
               then map (composite_key item.1) aliases
               else []
           end) names ->
  fold_left (name_step dashcoeff parent aliases) names (Ok w) = Ok w' ->
  functionals w' !! k = functionals w !! k.
Proof.
  intros Hk.
  apply (names_fold_ind (fun w0 => functionals w0 !! k = functionals w !! k));
    [|done].
  intros item table w0 Hin Hget <-. apply table_lookup_other.
  intros Hbad. apply Hk. apply list_elem_of_In, in_flat_map.
  exists item. split; [by apply list_elem_of_In|].
  rewrite Hget. by apply list_elem_of_In.
Qed.

End OneFunctional.

Section Process.

Context (dashcoeff : Dict.t (Dict.t CoeffRow)).

Lemma process_total (ref : nat) (functional : FunctionalSpec) (w : World) :
  covers_schemes dashcoeff ->
  exists w', process_functional dashcoeff ref functional w = Ok w'.
Proof.
  intros Hall. unfold process_functional.
  case_bool_decide; [eauto|]. by apply names_total.
Qed.

Lemma process_prefix (ref : nat) (functional : FunctionalSpec) (w w' : World) :
  process_functional dashcoeff ref functional w = Ok w' ->
  heap w `prefix_of` heap w'.
Proof.
  unfold process_functional. case_bool_decide.
  - by intros [= <-].
  - intros Hrun. by apply names_prefix in Hrun.
Qed.

Lemma process_lookup_other (ref : nat) (functional : FunctionalSpec)
    (w w' : World) (k : string) :
  process_functional dashcoeff ref functional w = Ok w' ->
  k ∉ written_keys dashcoeff functional ->
  functionals w' !! k = functionals w !! k.
Proof.
  unfold process_functional, written_keys, composite_keys.
  intros Hrun [Halias Hcomp]%not_elem_of_app.
  assert (register id ref (get_functional_aliases functional) (functionals w)
          !! k = functionals w !! k) as Hreg.
  { apply register_lookup_other. by rewrite map_id. }
  case_bool_decide.
  - injection Hrun as <-. exact Hreg.
  - apply (names_lookup_other _ _ _ _ _ _ k Hcomp) in Hrun.
    by rewrite Hrun.
Qed.

Lemma process_alias (ref : nat) (functional : FunctionalSpec)
    (w w' : World) (k : string) :
  process_functional dashcoeff ref functional w = Ok w' ->
  k ∈ get_functional_aliases functional ->
  k ∉ composite_keys dashcoeff functional ->
  functionals w' !! k = Some ref.
Proof.
  unfold process_functional, composite_keys. intros Hrun Halias Hcomp.
  assert (register id ref (get_functional_aliases functional) (functionals w)
          !! k = Some ref) as Hreg.
  { apply register_lookup_key. by rewrite map_id. }
  case_bool_decide.
  - injection Hrun as <-. exact Hreg.
  - apply (names_lookup_other _ _ _ _ _ _ k Hcomp) in Hrun.
    by rewrite Hrun.
Qed.

Lemma process_composite (ref : nat) (functional : FunctionalSpec)
    (w w' : World) (s t a : string) (table : Dict.t CoeffRow) :
  process_functional dashcoeff ref functional w = Ok w' ->
  f_dispersion functional = None ->
  (s, t) ∈ dispersion_names ->
  Dict.get t dashcoeff = Some table ->
  Exists (fun item : string * CoeffRow =>
            Str.upper item.1 ∈ get_functional_aliases functional) table ->
  a ∈ get_functional_aliases functional ->
  resolves_to_variant w' (composite_key s a) functional t.
Proof.
  unfold process_functional. intros Hrun Hd Hs Hget Hex Ha.
  rewrite Hd in Hrun. rewrite bool_decide_eq_false_2 in Hrun
    by (by intros [? ?]).
  by eapply names_makes.
Qed.

(** *** The whole definition source *)

Lemma loop_app (ref : nat) (l1 l2 : Dict.t FunctionalSpec) (w : World) :
  registry_loop dashcoeff ref (l1 ++ l2)%list w
  = rbind (registry_loop dashcoeff ref l1 w)
          (registry_loop dashcoeff (ref + length l1) l2).
Proof.
  revert ref w. induction l1 as [|[n f] l1 IH]; intros ref w; simpl.
  - by rewrite Nat.add_0_r.
  - destruct (process_functional dashcoeff ref f w) as [w1|e]; simpl; [|done].
    rewrite IH. by rewrite Nat.add_succ_r.
Qed.

Lemma loop_total (ref : nat) (defs : Dict.t FunctionalSpec) (w : World) :
  covers_schemes dashcoeff ->
  exists w', registry_loop dashcoeff ref defs w = Ok w'.
Proof.
  intros Hall. revert ref w.
  induction defs as [|[n f] defs IH]; intros ref w; simpl; [eauto|].
  destruct (process_total ref f w Hall) as [w1 ->]. simpl. apply IH.
Qed.

Lemma loop_prefix (ref : nat) (defs : Dict.t FunctionalSpec) (w w' : World) :
  registry_loop dashcoeff ref defs w = Ok w' -> heap w `prefix_of` heap w'.
Proof.
  revert ref w. induction defs as [|[n f] defs IH]; intros ref w; simpl.
  - by intros [= <-].
  - destruct (process_functional dashcoeff ref f w) as [w1|e] eqn:Hp; simpl;
      [|done].
    intros Hrun. etrans; [by eapply process_prefix|by eapply IH].
Qed.

Lemma loop_lookup_other (ref : nat) (defs : Dict.t FunctionalSpec)
    (w w' : World) (k : string) :
  registry_loop dashcoeff ref defs w = Ok w' ->
  Forall (fun item : string * FunctionalSpec =>
            k ∉ written_keys dashcoeff item.2) defs ->
  functionals w' !! k = functionals w !! k.
Proof.
  intros Hrun Hall. revert ref w Hrun.
  induction Hall as [|[n f] defs Hk _ IH]; intros ref w; simpl.
  - by intros [= <-].
  - destruct (process_functional dashcoeff ref f w) as [w1|e] eqn:Hp; simpl;
      [|done].
    intros Hrun. rewrite (IH _ _ Hrun). by eapply process_lookup_other.
Qed.

(** A key in the alias table was written for some definition. *)
Lemma loop_lookup_written (ref : nat) (defs : Dict.t FunctionalSpec)
    (w w' : World) (k : string) :
  registry_loop dashcoeff ref defs w = Ok w' ->
  functionals w !! k = None ->
  is_Some (functionals w' !! k) ->
  Exists (fun item : string * FunctionalSpec =>
            k ∈ written_keys dashcoeff item.2) defs.
Proof.
  intros Hrun Hnone Hsome.
  destruct (decide (Exists (fun item : string * FunctionalSpec =>
                              k ∈ written_keys dashcoeff item.2) defs))
    as [Hex|Hno]; [done|].
  apply not_Exists_Forall in Hno; [|intros x; apply _].
  rewrite (loop_lookup_other ref defs w w' k Hrun) in Hsome.
  - rewrite Hnone in Hsome. by destruct Hsome.
  - eapply Forall_impl; [exact Hno|]. simpl. auto.
Qed.

End Process.

(** *** The alias table after the import *)

Lemma alias_declared (functional : FunctionalSpec) (a : string) :
  a ∈ get_functional_aliases functional <->
  exists s, s ∈ declared_names functional /\ a = Str.upper s.
Proof.
  unfold get_functional_aliases, declared_names.
  destruct (f_alias functional) as [l|]; simpl.
  - rewrite elem_of_app, list_elem_of_fmap, list_elem_of_singleton. split.
    + intros [(s & -> & Hs)| ->]; eexists; split; try reflexivity.
      * by right.
      * by left.
    + intros (s & [->|Hs]%elem_of_cons & ->); [by right|left; eauto].
  - rewrite list_elem_of_singleton. split.
    + intros ->. eexists. split; [by left|done].
    + intros (s & [->|Hs]%elem_of_cons & ->); [done|].
      by apply elem_of_nil in Hs.
Qed.

Lemma written_key_shape (dashcoeff : Dict.t (Dict.t CoeffRow))
    (functional : FunctionalSpec) (k : string) :
  k ∈ written_keys dashcoeff functional ->
  k ∈ get_functional_aliases functional \/
  exists a dn,
    a ∈ get_functional_aliases functional /\
    dn ∈ Dict.keys dispersion_names /\ k = composite_key dn a.
Proof.
  unfold written_keys, composite_keys.
  intros [Hk|Hk]%elem_of_app; [by left|]. right.
  case_bool_decide; [by apply elem_of_nil in Hk|].
  apply list_elem_of_In, in_flat_map in Hk as ([dn dt] & Hdn & Hk).
  apply list_elem_of_In in Hdn. apply list_elem_of_In in Hk. simpl in Hk.
  destruct (Dict.get dt dashcoeff) as [table|];
    [|by apply elem_of_nil in Hk].
  destruct (existsb _ table); [|by apply elem_of_nil in Hk].
  apply list_elem_of_fmap in Hk as (a & -> & Ha).
  exists a, dn. split; [done|]. split; [|done].
  unfold Dict.keys. apply list_elem_of_fmap. by exists (dn, dt).
Qed.

Lemma composite_key_upper (dn s : string) :
  let k := composite_key dn (Str.upper s) in
  Str.upper k = k /\ Str.no_lower k = true.
Proof.
  unfold composite_key. split.
  - by rewrite !upper_app, !upper_idem.
  - by rewrite !no_lower_app, !no_lower_upper.
Qed.

Lemma initial_heap_lookup (before after : Dict.t FunctionalSpec)
    (n : string) (functional : FunctionalSpec) :
  (before ++ (n, functional) :: after).*2 !! length before = Some functional.
Proof.
  rewrite fmap_app, lookup_app_r by (by rewrite length_fmap).
  by rewrite length_fmap, Nat.sub_diag.
Qed.

(** The import, split at one definition of the source. *)
Lemma build_functionals_at (dashcoeff : Dict.t (Dict.t CoeffRow))
    (before after : Dict.t FunctionalSpec) (n : string)
    (functional : FunctionalSpec) :
  covers_schemes dashcoeff ->
  exists w1 w2 w,
    process_functional dashcoeff (length before) functional w1 = Ok w2 /\
    registry_loop dashcoeff (S (length before)) after w2 = Ok w /\
    build_functionals (before ++ (n, functional) :: after) dashcoeff = Ok w /\
    heap w !! length before = Some functional.
Proof.
  intros Hall. unfold build_functionals.
  set (w0 := {| heap := (before ++ (n, functional) :: after).*2;
                functionals := ∅ |}).
  destruct (loop_total dashcoeff 0 before w0 Hall) as [w1 H1].
  destruct (process_total dashcoeff (length before) functional w1 Hall)
    as [w2 H2].
  destruct (loop_total dashcoeff (S (length before)) after w2 Hall)
    as [w H3].
  exists w1, w2, w. split; [done|]. split; [done|].
  assert (registry_loop dashcoeff 0 (before ++ (n, functional) :: after) w0
          = Ok w) as Hrun.
  { rewrite loop_app, H1. simpl. by rewrite H2. }
  split; [done|].
  apply loop_prefix in Hrun. eapply prefix_lookup_Some; [|exact Hrun].
  apply initial_heap_lookup.
Qed.

Lemma upper_ascii_below (c : ascii) :
  (nat_of_ascii c <? 128)%nat = true ->
  (nat_of_ascii (Str.upper_ascii c) <? 128)%nat = true.
Proof.
  destruct c as [[] [] [] [] [] [] [] []]; vm_compute; intros H;
    first [reflexivity|discriminate H].
Qed.

Lemma ascii_only_upper (s : string) :
  ascii_only s = true -> ascii_only (Str.upper s) = true.
Proof.
  induction s as [|c s IH]; simpl; [done|].
  intros [Hc Hs]%andb_true_iff.
  by rewrite (upper_ascii_below c Hc), (IH Hs).
Qed.

Lemma ascii_only_app (s t : string) :
  ascii_only (s +:+ t) = ascii_only s && ascii_only t.
Proof.
  induction s as [|c s IH]; simpl; [reflexivity|].
  by rewrite IH, andb_assoc.
Qed.

Lemma short_names_ascii :
  Forall (fun item : string * string => ascii_only (Str.upper item.1) = true)
         dispersion_names.
Proof. repeat constructor. Qed.

(** C10.  When the names and aliases of the definition source are
    ASCII strings, every key of the alias table that the import
    builds is the upper-cased name or alias of a definition of the
    source, or such a string followed by a hyphen and the upper-cased
    short name of a dispersion scheme; it is an ASCII string, it is
    its own upper-casing and it has no lower-case letter. *)
Theorem registry_keys_uppercase (dict_functionals : Dict.t FunctionalSpec)
    (dashcoeff : Dict.t (Dict.t CoeffRow)) (w : World) (key : string) :
  Forall (fun item : string * FunctionalSpec =>
            Forall (fun s => ascii_only s = true) (declared_names item.2))
         dict_functionals ->
  build_functionals dict_functionals dashcoeff = Ok w ->
  is_Some (functionals w !! key) ->
  ascii_only key = true /\
  Str.upper key = key /\ Str.no_lower key = true /\
  exists functional s,
    functional ∈ dict_functionals.*2 /\
    s ∈ declared_names functional /\
    (key = Str.upper s \/
     exists dn, dn ∈ Dict.keys dispersion_names /\
                key = Str.upper s +:+ "-" +:+ Str.upper dn).
Proof.
  intros Hascii Hrun Hkey. unfold build_functionals in Hrun.
  apply (loop_lookup_written _ _ _ _ _ key Hrun) in Hkey; [|done].
  apply Exists_exists in Hkey as ([n functional] & Hin & Hkey).
  assert (functional ∈ dict_functionals.*2) as Hdef
    by (apply list_elem_of_fmap; by exists (n, functional)).
  rewrite Forall_forall in Hascii. specialize (Hascii _ Hin).
  rewrite Forall_forall in Hascii. simpl in Hascii.
  apply written_key_shape in Hkey as [Ha|(a & dn & Ha & Hdn & ->)];
    apply alias_declared in Ha as (s & Hs & ->).
  - split; [by apply ascii_only_upper, Hascii|].
    split; [apply upper_idem|]. split; [apply no_lower_upper|].
    exists functional, s. eauto.
  - destruct (composite_key_upper dn s) as [Hup Hlow].
    split.
    { unfold composite_key. rewrite !ascii_only_app.
      rewrite (ascii_only_upper s (Hascii s Hs)). simpl.
      pose proof short_names_ascii as Hshort.
      rewrite Forall_forall in Hshort.
      apply list_elem_of_fmap in Hdn as ([dn' dt] & -> & Hdn).
      exact (Hshort _ Hdn). }
    split; [exact Hup|]. split; [exact Hlow|].
    exists functional, s. split; [done|]. split; [done|]. right. eauto.
Qed.

(** C7, as the code has it.  Take a definition without ["dispersion"],
    one of whose upper-cased names matches the upper-cased key of a
    row of [dashcoeff] under a scheme, a short name [s] of that
    scheme and an upper-cased name [a] of the definition.  Provided
    no definition later in the source writes the key [a-S], with [S]
    the upper-cased short name, the import succeeds and registers
    under that key a copy whose ["dispersion"]["type"] is the scheme
    and whose name is the parent's name followed by a hyphen and the
    scheme. *)
Theorem dispersion_variant_registered
    (dashcoeff : Dict.t (Dict.t CoeffRow))
    (before after : Dict.t FunctionalSpec) (n : string)
    (functional : FunctionalSpec) (s t a row_key : string)
    (table : Dict.t CoeffRow) (row : CoeffRow) :
  covers_schemes dashcoeff ->
  f_dispersion functional = None ->
  (s, t) ∈ dispersion_names ->
  Dict.get t dashcoeff = Some table ->
  (row_key, row) ∈ table ->
  Str.upper row_key ∈ get_functional_aliases functional ->
  a ∈ get_functional_aliases functional ->
  Forall (fun later : string * FunctionalSpec =>
            a +:+ "-" +:+ Str.upper s ∉ written_keys dashcoeff later.2)
         after ->
  exists w ref variant d,
    build_functionals (before ++ (n, functional) :: after) dashcoeff = Ok w /\
    functionals w !! (a +:+ "-" +:+ Str.upper s) = Some ref /\
    heap w !! ref = Some variant /\
    f_dispersion variant = Some d /\
    disp_type d = t /\
    f_name variant = f_name functional +:+ "-" +:+ t.
Proof.
  intros Hall Hd Hs Hget Hrow Hmatch Ha Hlater.
  destruct (build_functionals_at dashcoeff before after n functional Hall)
    as (w1 & w2 & w & H2 & H3 & Hrun & _).
  assert (resolves_to_variant w (composite_key s a) functional t) as Hres.
  { apply (variant_prefix functional w2 w).
    - by eapply loop_prefix.
    - by eapply loop_lookup_other.
    - eapply process_composite; eauto.
      apply Exists_exists. by exists (row_key, row). }
  destruct Hres as (ref & row' & Hreg & Hheap).
  exists w, ref, (dispersion_variant functional t row'). eexists.
  split; [done|]. split; [done|]. split; [done|]. by split.
Qed.

(** C1, as the code has it.  Take a definition of the source and one
    of its upper-cased names, a key that neither the dispersion
    variants of the definition nor any later definition writes.
    After the import that key refers to the definition itself, the
    same reference for every such key, and the constructor called
    with that key runs on that dictionary.  The lookup of the
    constructor is exact: a name that is not a key of the table, such
    as a lower-case spelling, ends in a [KeyError]. *)
Theorem alias_lookup_exact (core : Core) (g_name : option string)
    (dashcoeff : Dict.t (Dict.t CoeffRow))
    (before after : Dict.t FunctionalSpec) (n : string)
    (functional : FunctionalSpec) (key : string) :
  covers_schemes dashcoeff ->
  key ∈ get_functional_aliases functional ->
  key ∉ composite_keys dashcoeff functional ->
  Forall (fun later : string * FunctionalSpec =>
            key ∉ written_keys dashcoeff later.2) after ->
  exists w,
    build_functionals (before ++ (n, functional) :: after) dashcoeff = Ok w /\
    functionals w !! key = Some (length before) /\
    heap w !! length before = Some functional /\
    (forall npoints deriv restricted,
       build_superfunctional_from_dictionary core g_name w key npoints deriv
         restricted
       = let run := build_from core g_name functional key npoints deriv
                      restricted in
         (run.1, {| heap := <[length before := run.2]> (heap w);
                    functionals := functionals w |})) /\
    (forall name npoints deriv restricted,
       functionals w !! name = None ->
       build_superfunctional_from_dictionary core g_name w name npoints deriv
         restricted = (Raise (KeyError name), w)).
Proof.
  intros Hall Hkey Hcomp Hlater.
  destruct (build_functionals_at dashcoeff before after n functional Hall)
    as (w1 & w2 & w & H2 & H3 & Hrun & Hheap).
  assert (functionals w !! key = Some (length before)) as Hreg.
  { rewrite (loop_lookup_other _ _ _ _ _ key H3 Hlater).
    by eapply process_alias. }
  exists w. split; [done|]. split; [done|]. split; [done|]. split.
  - intros npoints deriv restricted.
    unfold build_superfunctional_from_dictionary. rewrite Hreg, Hheap.
    by destruct (build_from core g_name functional key npoints deriv
                   restricted).
  - intros name npoints deriv restricted Hnone. by apply build_unregistered.
Qed.

(** C1, refuted as stated.  The definition source registers PBE0 under
    ["PBE0"] and ["PBEH"]; the constructor called with the spellings
    ["pbe0"] and ["Pbeh"] ends in a [KeyError]. *)
Lemma lookup_is_case_sensitive :
  exists w,
    build_functionals Examples.dict_functionals Examples.dashcoeff = Ok w /\
    functionals w !! "PBE0" = Some 1%nat /\
    functionals w !! "PBEH" = Some 1%nat /\
    heap w !! 1%nat = Some Examples.pbe0 /\
    (build_superfunctional_from_dictionary Examples.core None w "pbe0"
       500 1 true).1 = Raise (KeyError "pbe0") /\
    (build_superfunctional_from_dictionary Examples.core None w "Pbeh"
       500 1 true).1 = Raise (KeyError "Pbeh").
Proof.
  eexists. split; [vm_compute; reflexivity|].
  repeat split; vm_compute; reflexivity.
Qed.

(** C7, refuted as stated.  In a source where the definition B88 is
    followed by a definition named ["B88-D3"] with a dispersion of its
    own, the key ["B88-D3"] refers after the import to that later
    definition: its ["dispersion"]["type"] is ["d3bj"], not the scheme
    ["d3zero"] that the short name ["d3"] stands for, and its name is
    not ["B88-d3zero"]. *)
Lemma composite_key_overwritten :
  f_dispersion Examples.b88 = None /\
  ("d3", "d3zero") ∈ dispersion_names /\
  Dict.get "d3zero" Examples.dashcoeff = Some [("b88", Examples.d3zero_row)] /\
  Str.upper "b88" ∈ get_functional_aliases Examples.b88 /\
  exists w ref,
    build_functionals Examples.dict_functionals_clash Examples.dashcoeff
    = Ok w /\
    functionals w !! "B88-D3" = Some ref /\
    heap w !! ref = Some Examples.b88_d3 /\
    (disp_type <$> f_dispersion Examples.b88_d3) = Some "d3bj" /\
    f_name Examples.b88_d3 = "B88-D3".
Proof.
  split; [reflexivity|]. split; [by vm_compute; set_solver|].
  split; [reflexivity|]. split; [by vm_compute; set_solver|].
  eexists _, _. split; [vm_compute; reflexivity|].
  repeat split; vm_compute; reflexivity.
Qed.

(** The bundled branch sets no mixing.  PBE0 is a bundled definition;
    the object built for it is the one that [XC_build] returns, whose
    exchange alpha of 0.25 the constructor leaves in place. *)
Lemma bundled_keeps_its_mixing :
  f_x_hf Examples.pbe0 = None /\
  f_x_functionals Examples.pbe0 = None /\
  functionals Examples.world !! "PBE0" = Some 1%nat /\
  heap Examples.world !! 1%nat = Some Examples.pbe0 /\
  exists sup w',
    build_superfunctional_from_dictionary Examples.core None Examples.world
      "PBE0" 500 1 true = (Ok (sup, None), w') /\
    sf_x_alpha sup = 0.25%float /\
    sf_x_alpha sup <> 0%float.
Proof.
  repeat split; try (vm_compute; reflexivity).
  eexists _, _. split; [vm_compute; reflexivity|].
  split; [reflexivity|]. simpl. intros Heq.
  apply (f_equal (PrimFloat.ltb 0)) in Heq. vm_compute in Heq. discriminate.
Qed.


(** ** The theorems at concrete definitions *)

Lemma example_covers_schemes : covers_schemes Examples.dashcoeff.
Proof. repeat (constructor; [by eexists|]). constructor. Qed.

Lemma example_world :
  build_functionals Examples.dict_functionals Examples.dashcoeff
  = Ok Examples.world.
Proof. vm_compute. reflexivity. Qed.


Lemma build_candidate_mixing_witness :
  exists sup dispersion w',
    build_superfunctional_from_dictionary Examples.core None
      (MoreExamples.world_of "DH" MoreExamples.double_hybrid) "DH" 500 1 true
    = (Ok (sup, dispersion), w') /\
    sf_x_alpha sup = (0.25 + 0.125)%float /\
    sf_x_beta sup = (0.25 - 0.125)%float /\
    sf_x_omega sup = 0.5%float.
Proof.
  destruct (build_candidate_mixing Examples.core None
              (MoreExamples.world_of "DH" MoreExamples.double_hybrid)
              "DH" 500 1 true 0 MoreExamples.double_hybrid)
    as (x_funcs & sup & dispersion & w' & Hx & Hrun & _ & Hflagged);
    try (vm_compute; reflexivity).
  exists sup, dispersion, w'. split; [exact Hrun|].
  injection Hx as <-.
  apply (Hflagged [] [("GGA_X_PBE", Examples.plain)] "GGA_X_B88"
           {| xp_alpha := Some 0.5%float; xp_omega := None;
              xp_tweak := None; xp_use_libxc := Some true |}).
  - reflexivity.
  - reflexivity.
  - repeat constructor.
Defined.

Lemma build_bundled_uses_last_component_witness :
  exists w',
    build_superfunctional_from_dictionary Examples.core None Examples.world
      "TWOXC" 500 1 true
    = (let made := XC_build Examples.core "XC_HYB_GGA_XC_PBEH" true in
       Ok (finalize "TWOXC" 500 1
             (apply_overrides Examples.two_bundled
                (Sup.set_description (bundled_description "TWOXC" made) made)),
           (take_dispersion (f_dispersion Examples.two_bundled)).1),
       w').
Proof.
  apply (build_bundled_uses_last_component Examples.core None Examples.world
           "TWOXC" 500 1 true 4 Examples.two_bundled
           [("GGA_XC_HCTH_93", [])] "HYB_GGA_XC_PBEH" []);
    vm_compute; reflexivity.
Defined.

Lemma build_registry_frame_witness :
  let w' := (build_superfunctional_from_dictionary Examples.core None
               Examples.world "B88-D3ZERO" 500 1 true).2 in
  functionals w' = functionals Examples.world /\
  forall ref : nat,
    heap w' !! ref = heap Examples.world !! ref \/
    functionals Examples.world !! "B88-D3ZERO" = Some ref /\
    exists func d_params,
      heap Examples.world !! ref = Some func /\
      f_dispersion func = Some d_params /\
      disp_citation d_params = None /\
      heap w' !! ref
      = Some (with_dispersion (Some (fill_citation d_params)) func).
Proof.
  apply (build_registry_frame Examples.core None Examples.world "B88-D3ZERO"
           500 1 true).
  intros ref func x_hf Hreg Hheap Hhf.
  vm_compute in Hreg. injection Hreg as <-.
  vm_compute in Hheap. injection Hheap as <-. discriminate Hhf.
Defined.

Lemma registry_keys_uppercase_witness :
  ascii_only "B88-D3" = true /\
  Str.upper "B88-D3" = "B88-D3" /\ Str.no_lower "B88-D3" = true /\
  exists functional s,
    functional ∈ Examples.dict_functionals.*2 /\
    s ∈ declared_names functional /\
    ("B88-D3" = Str.upper s \/
     exists dn, dn ∈ Dict.keys dispersion_names /\
                "B88-D3" = Str.upper s +:+ "-" +:+ Str.upper dn).
Proof.
  apply (registry_keys_uppercase Examples.dict_functionals Examples.dashcoeff
           Examples.world "B88-D3").
  - vm_compute. repeat constructor.
  - exact example_world.
  - vm_compute. by eexists.
Defined.

Lemma dispersion_variant_registered_witness :
  exists w ref variant d,
    build_functionals Examples.dict_functionals Examples.dashcoeff = Ok w /\
    functionals w !! "B88-D3" = Some ref /\
    heap w !! ref = Some variant /\
    f_dispersion variant = Some d /\
    disp_type d = "d3zero" /\
    f_name variant = "B88-d3zero".
Proof.
  apply (dispersion_variant_registered Examples.dashcoeff []
           [("pbe0", Examples.pbe0); ("betaonly", Examples.beta_only);
            ("twohyb", Examples.two_hybrid); ("twoxc", Examples.two_bundled)]
           "b88" Examples.b88 "d3" "d3zero" "B88" "b88"
           [("b88", Examples.d3zero_row)] Examples.d3zero_row).
  - exact example_covers_schemes.
  - reflexivity.
  - by_computation.
  - reflexivity.
  - by left.
  - by_computation.
  - by_computation.
  - by_computation.
Defined.

Lemma alias_lookup_exact_witness :
  exists w,
    build_functionals Examples.dict_functionals Examples.dashcoeff = Ok w /\
    functionals w !! "PBEH" = Some 1%nat /\
    heap w !! 1%nat = Some Examples.pbe0 /\
    (forall npoints deriv restricted,
       build_superfunctional_from_dictionary Examples.core None w "PBEH"
         npoints deriv restricted
       = let run := build_from Examples.core None Examples.pbe0 "PBEH" npoints
                      deriv restricted in
         (run.1, {| heap := <[1%nat := run.2]> (heap w);
                    functionals := functionals w |})) /\
    (forall name npoints deriv restricted,
       functionals w !! name = None ->
       build_superfunctional_from_dictionary Examples.core None w name
         npoints deriv restricted = (Raise (KeyError name), w)).
Proof.
  apply (alias_lookup_exact Examples.core None Examples.dashcoeff
           [("b88", Examples.b88)]
           [("betaonly", Examples.beta_only); ("twohyb", Examples.two_hybrid);
            ("twoxc", Examples.two_bundled)]
           "pbe0" Examples.pbe0 "PBEH").
  - exact example_covers_schemes.
  - by_computation.
  - by_computation.
  - by_computation.
Defined.

(** The case of B88 with the row ["b88"] under d3zero: both
    ["B88-D3ZERO"] and ["B88-D3"] are registered, each to a copy of
    B88 named ["B88-d3zero"] with ["dispersion"]["type"] d3zero. *)
Example b88_d3zero_variants :
  Forall (fun key : string =>
            exists ref variant,
              functionals Examples.world !! key = Some ref /\
              heap Examples.world !! ref = Some variant /\
              f_name variant = "B88-d3zero" /\
              (disp_type <$> f_dispersion variant) = Some "d3zero")
         ["B88-D3ZERO"; "B88-D3"].
Proof.
  repeat constructor; eexists _, _;
    (split; [vm_compute; reflexivity|]);
    (split; [vm_compute; reflexivity|]); split; reflexivity.
Qed.

(** * Further properties *)

(** ** The validator, case by case *)

Lemma raise_not_ok {A} (g_name : option string) (k : ErrorKind) (a : A) :
  raise_ValidationError g_name k <> Ok a.
Proof. by destruct g_name. Qed.

Lemma count_fold_raise (x_functionals l : Dict.t XParams) (e : PyExn) :
  fold_left (count_step x_functionals) l (Raise e) = Raise e.
Proof. induction l as [|item l IH]; [done|exact IH]. Qed.

Lemma count_fold_outcomes (x_functionals l : Dict.t XParams) (n : nat) :
  (exists m, fold_left (count_step x_functionals) l (Ok n) = Ok m) \/
  fold_left (count_step x_functionals) l (Ok n) = Raise (KeyError "use_libxc").
Proof.
  revert n. induction l as [|item l IH]; intros n; [left; by exists n|].
  change (fold_left (count_step x_functionals) (item :: l) (Ok n))
    with (fold_left (count_step x_functionals) l
            (count_step x_functionals (Ok n) item)).
  unfold count_step at 2 4. simpl.
  destruct (Dict.has_key "use_libxc" x_functionals); [|apply IH].
  destruct (xp_use_libxc item.2) as [[]|]; [apply IH..|].
  right. apply count_fold_raise.
Qed.

Lemma count_fold_missing_flag (x_functionals l : Dict.t XParams) (n : nat) :
  Dict.has_key "use_libxc" x_functionals = true ->
  Exists (fun item : string * XParams => xp_use_libxc item.2 = None) l ->
  fold_left (count_step x_functionals) l (Ok n) = Raise (KeyError "use_libxc").
Proof.
  intros Hkey Hex. revert n.
  induction Hex as [item l Hnone|item l _ IH]; intros n;
    change (fold_left (count_step x_functionals) (item :: l) (Ok n))
      with (fold_left (count_step x_functionals) l
              (count_step x_functionals (Ok n) item));
    unfold count_step at 2; simpl; rewrite Hkey.
  - rewrite Hnone. apply count_fold_raise.
  - destruct (xp_use_libxc item.2) as [[]|]; [apply IH..|].
    apply count_fold_raise.
Qed.

(** The validator ends in one of four ways: it returns, it reaches
    the raise statement of one of the seven kinds, or a lookup of
    ["use_libxc"] or of ["x_functionals"] fails with a [KeyError]. *)
Theorem check_consistency_outcomes (g_name : option string)
    (func : FunctionalSpec) (func_name : string) :
  let r := check_consistency g_name func func_name in
  r = Ok tt \/
  (exists k, r = raise_ValidationError g_name k) \/
  r = Raise (KeyError "use_libxc") \/
  r = Raise (KeyError "x_functionals").
Proof.
  unfold check_consistency, count_use_libxc.
  assert (forall e : PyExn,
            e = NameError "name" ->
            exists _ : ErrorKind, @Raise unit e = Raise (NameError "name"))
    as Hany by (intros e ->; by exists DuplicateExchangeSpec).
  destruct (f_x_functionals func) as [xf|].
  - destruct (count_fold_outcomes xf xf 0) as [[m Hm]|Hm]; rewrite Hm.
    + destruct g_name, (f_xc_functionals func),
        (f_x_hf func) as [[a b o [comp|]]|], (f_c_functionals func),
        (f_c_mp2 func); simpl; eauto 6;
        destruct m as [|[|m]]; simpl; eauto 6;
        try match goal with
        | |- context [Dict.has_key ?c xf] => destruct (Dict.has_key c xf)
        end; eauto 6.
    + destruct g_name, (f_xc_functionals func),
        (f_x_hf func) as [[a b o [comp|]]|], (f_c_functionals func),
        (f_c_mp2 func); simpl; eauto 6.
  - destruct g_name, (f_xc_functionals func),
      (f_x_hf func) as [[a b o [comp|]]|], (f_c_functionals func),
      (f_c_mp2 func); simpl; eauto 6.
Qed.

Lemma rbind_ok {A B} (r : Result A) (k : A -> Result B) (b : B) :
  rbind r k = Ok b -> exists a, r = Ok a /\ k a = Ok b.
Proof. destruct r as [a|e]; [eauto|discriminate]. Qed.

(** The validator accepts a definition none of whose exchange
    components is called ["use_libxc"] exactly when the definition is
    bundled and has no exchange or correlation key, or is not bundled,
    has an exchange key and a correlation key, and the component that
    ["x_hf"] asks libxc parameters for, if any, is an exchange
    component. *)
Theorem check_consistency_accepts_iff (g_name : option string)
    (func : FunctionalSpec) (func_name : string) :
  (forall xf, f_x_functionals func = Some xf ->
              Dict.has_key "use_libxc" xf = false) ->
  check_consistency g_name func func_name = Ok tt <->
  match f_xc_functionals func with
  | Some _ =>
      f_x_functionals func = None /\ f_x_hf func = None /\
      f_c_functionals func = None /\ f_c_mp2 func = None
  | None =>
      (is_Some (f_x_functionals func) \/ is_Some (f_x_hf func)) /\
      (is_Some (f_c_functionals func) \/ is_Some (f_c_mp2 func)) /\
      forall x_hf component,
        f_x_hf func = Some x_hf -> hf_use_libxc x_hf = Some component ->
        exists xf,
          f_x_functionals func = Some xf /\ component ∈ Dict.keys xf
  end.
Proof.
  intros Hnamed. split.
  - intros Hok. pose proof (check_consistency_ok g_name func func_name Hok)
      as Hshape.
    destruct (f_xc_functionals func) eqn:Hxc; [exact Hshape|].
    destruct Hshape as [Hx Hc]. split; [done|]. split; [done|].
    intros x_hf component Hhf Hcomp.
    unfold check_consistency in Hok.
    apply rbind_ok in Hok as ([] & _ & Hok).
    apply rbind_ok in Hok as (count & Hcount & Hok).
    rewrite Hhf, Hcomp in Hok.
    destruct (f_x_functionals func) as [xf|] eqn:Hxf.
    + exists xf. split; [done|].
      rewrite (count_use_libxc_unnamed xf (Hnamed xf eq_refl)) in Hcount.
      injection Hcount as <-. simpl in Hok.
      unfold Dict.has_key in Hok. case_bool_decide; [done|].
      by apply raise_not_ok in Hok.
    + injection Hcount as <-. simpl in Hok. discriminate.
  - unfold check_consistency.
    destruct (f_xc_functionals func) as [xc|].
    + intros (-> & -> & -> & ->). reflexivity.
    + intros (Hx & Hc & Href).
      assert ((negb (bool_decide (is_Some (f_x_functionals func))) &&
               negb (bool_decide (is_Some (f_x_hf func)))) = false) as ->.
      { destruct Hx as [Hx|Hx]; rewrite (bool_decide_eq_true_2 _ Hx); simpl;
          [done|apply andb_false_r]. }
      assert ((negb (bool_decide (is_Some (f_c_functionals func))) &&
               negb (bool_decide (is_Some (f_c_mp2 func)))) = false) as ->.
      { destruct Hc as [Hc|Hc]; rewrite (bool_decide_eq_true_2 _ Hc); simpl;
          [done|apply andb_false_r]. }
      simpl.
      assert (match f_x_functionals func with
              | Some x_functionals => count_use_libxc x_functionals
              | None => Ok 0%nat
              end = Ok 0%nat) as ->.
      { destruct (f_x_functionals func) as [xf|] eqn:Hxf; [|done].
        by apply count_use_libxc_unnamed, Hnamed. }
      simpl.
      destruct (f_x_hf func) as [x_hf|]; [|done].
      destruct (hf_use_libxc x_hf) as [component|] eqn:Hcomp; [|done].
      destruct (Href x_hf component eq_refl Hcomp) as (xf & -> & Hin).
      unfold Dict.has_key. by rewrite bool_decide_eq_true_2.
Qed.

(** ["x_hf"] asks for the libxc parameters of a component while the
    definition has no ["x_functionals"]: with correlation given, the
    validator ends in a [KeyError] for ["x_functionals"], not in one
    of its seven kinds. *)
Theorem check_reference_without_components (g_name : option string)
    (func : FunctionalSpec) (func_name : string) (x_hf : XHF)
    (component : string) :
  f_xc_functionals func = None ->
  f_x_functionals func = None ->
  f_x_hf func = Some x_hf ->
  hf_use_libxc x_hf = Some component ->
  is_Some (f_c_functionals func) \/ is_Some (f_c_mp2 func) ->
  check_consistency g_name func func_name = Raise (KeyError "x_functionals").
Proof.
  intros Hxc Hx Hhf Hcomp Hc. unfold check_consistency.
  rewrite Hxc, Hx, Hhf, Hcomp. simpl.
  destruct Hc as [Hc|Hc]; rewrite (bool_decide_eq_true_2 _ Hc); simpl;
    [done|by rewrite andb_false_r].
Qed.

(** When an exchange component is itself called ["use_libxc"], every
    component is asked for its ["use_libxc"] flag: with exchange and
    correlation given, one component without the flag ends the
    validator in a [KeyError]. *)
Theorem check_component_called_use_libxc (g_name : option string)
    (func : FunctionalSpec) (func_name : string) (xf : Dict.t XParams) :
  f_xc_functionals func = None ->
  f_x_functionals func = Some xf ->
  is_Some (f_c_functionals func) \/ is_Some (f_c_mp2 func) ->
  Dict.has_key "use_libxc" xf = true ->
  Exists (fun item : string * XParams => xp_use_libxc item.2 = None) xf ->
  check_consistency g_name func func_name = Raise (KeyError "use_libxc").
Proof.
  intros Hxc Hx Hc Hkey Hex. unfold check_consistency, count_use_libxc.
  rewrite Hxc, Hx, (count_fold_missing_flag xf xf 0 Hkey Hex). simpl.
  destruct Hc as [Hc|Hc]; rewrite (bool_decide_eq_true_2 _ Hc); simpl;
    [done|by rewrite andb_false_r].
Qed.

(** ** The import as a whole *)

Lemma names_fold_outcome (dashcoeff : Dict.t (Dict.t CoeffRow))
    (parent : FunctionalSpec) (aliases : list string)
    (names : Dict.t string) (w : World) :
  match fold_left (name_step dashcoeff parent aliases) names (Ok w) with
  | Ok _ =>
      Forall (fun item : string * string =>
                is_Some (Dict.get item.2 dashcoeff)) names
  | Raise e =>
      exists s t, (s, t) ∈ names /\ Dict.get t dashcoeff = None /\
                  e = KeyError t
  end.
Proof.
  revert w. induction names as [|[s t] names IH]; intros w.
  - simpl. constructor.
  - cbn [fold_left]. rewrite name_step_ok. simpl.
    destruct (Dict.get t dashcoeff) as [table|] eqn:Hget.
    + specialize (IH (fold_left (row_step parent aliases s t) table w)).
      destruct (fold_left (name_step dashcoeff parent aliases) names _).
      * constructor; [simpl; rewrite ?Hget; by eexists|done].
      * destruct IH as (s' & t' & Hin & Hnone & ->).
        exists s', t'. split; [by right|done].
    + rewrite names_fold_raise. exists s, t. split; [by left|done].
Qed.

Lemma process_outcome (dashcoeff : Dict.t (Dict.t CoeffRow)) (ref : nat)
    (functional : FunctionalSpec) (w : World) :
  match process_functional dashcoeff ref functional w with
  | Ok _ => is_Some (f_dispersion functional) \/ covers_schemes dashcoeff
  | Raise e =>
      f_dispersion functional = None /\
      exists s t, (s, t) ∈ dispersion_names /\
                  Dict.get t dashcoeff = None /\ e = KeyError t
  end.
Proof.
  unfold process_functional. case_bool_decide as Hd; [by left|].
  match goal with
  | |- context [fold_left ?f dispersion_names (Ok ?w0)] =>
      pose proof (names_fold_outcome dashcoeff functional
                    (get_functional_aliases functional) dispersion_names w0)
        as Hout;
      destruct (fold_left f dispersion_names (Ok w0))
  end.
  - by right.
  - split; [|done]. destruct (f_dispersion functional); [|done].
    destruct Hd. eauto.
Qed.

Lemma loop_outcome (dashcoeff : Dict.t (Dict.t CoeffRow)) (ref : nat)
    (defs : Dict.t FunctionalSpec) (w : World) :
  match registry_loop dashcoeff ref defs w with
  | Ok _ =>
      Forall (fun item : string * FunctionalSpec =>
                is_Some (f_dispersion item.2)) defs \/
      covers_schemes dashcoeff
  | Raise e =>
      Exists (fun item : string * FunctionalSpec =>
                f_dispersion item.2 = None) defs /\
      exists s t, (s, t) ∈ dispersion_names /\
                  Dict.get t dashcoeff = None /\ e = KeyError t
  end.
Proof.
  revert ref w. induction defs as [|[n f] defs IH]; intros ref w; simpl.
  - left. constructor.
  - pose proof (process_outcome dashcoeff ref f w) as Hp.
    destruct (process_functional dashcoeff ref f w) as [w1|e]; simpl.
    + specialize (IH (S ref) w1).
      destruct (registry_loop dashcoeff (S ref) defs w1).
      * destruct Hp as [Hd|Hall]; [|by right].
        destruct IH as [Hrest|Hall]; [left|by right]. by constructor.
      * destruct IH as [Hex Hkey]. split; [by right|done].
    + destruct Hp as [Hd Hkey]. split; [by left|done].
Qed.

Lemma loop_all_dispersion (dashcoeff : Dict.t (Dict.t CoeffRow)) (ref : nat)
    (defs : Dict.t FunctionalSpec) (w : World) :
  Forall (fun item : string * FunctionalSpec =>
            is_Some (f_dispersion item.2)) defs ->
  exists w', registry_loop dashcoeff ref defs w = Ok w' /\ heap w' = heap w.
Proof.
  intros Hall. revert ref w.
  induction Hall as [|[n f] defs Hd _ IH]; intros ref w; simpl; [eauto|].
  unfold process_functional. rewrite (bool_decide_eq_true_2 _ Hd). simpl.
  destruct (IH (S ref) {| heap := heap w;
                          functionals :=
                            register id ref (get_functional_aliases f)
                              (functionals w) |}) as (w' & -> & Hheap).
  eauto.
Qed.

(** The import succeeds exactly when the coefficient table has an
    entry for every scheme of the alias table, or no definition of the
    source needs one because each carries its own ["dispersion"]. *)
Theorem import_succeeds_iff (dict_functionals : Dict.t FunctionalSpec)
    (dashcoeff : Dict.t (Dict.t CoeffRow)) :
  (exists w, build_functionals dict_functionals dashcoeff = Ok w) <->
  Forall (fun item : string * FunctionalSpec =>
            is_Some (f_dispersion item.2)) dict_functionals \/
  covers_schemes dashcoeff.
Proof.
  unfold build_functionals. split.
  - intros [w Hrun].
    pose proof (loop_outcome dashcoeff 0 dict_functionals
                  {| heap := dict_functionals.*2; functionals := ∅ |}) as Hout.
    by rewrite Hrun in Hout.
  - intros [Hall|Hall].
    + destruct (loop_all_dispersion dashcoeff 0 dict_functionals
                  {| heap := dict_functionals.*2; functionals := ∅ |} Hall)
        as (w & Hrun & _). eauto.
    + by apply loop_total.
Qed.

(** When the import fails, it fails with the [KeyError] of a scheme
    of the alias table that the coefficient table lacks, met while
    expanding a definition without ["dispersion"]. *)
Theorem import_failure (dict_functionals : Dict.t FunctionalSpec)
    (dashcoeff : Dict.t (Dict.t CoeffRow)) (e : PyExn) :
  build_functionals dict_functionals dashcoeff = Raise e ->
  Exists (fun item : string * FunctionalSpec => f_dispersion item.2 = None)
         dict_functionals /\
  exists s t, (s, t) ∈ dispersion_names /\ Dict.get t dashcoeff = None /\
              e = KeyError t.
Proof.
  unfold build_functionals. intros Hrun.
  pose proof (loop_outcome dashcoeff 0 dict_functionals
                {| heap := dict_functionals.*2; functionals := ∅ |}) as Hout.
  by rewrite Hrun in Hout.
Qed.

(** A source in which every definition carries its own
    ["dispersion"] is imported without any copy being made, whatever
    the coefficient table is: the heap holds the definitions and
    nothing else. *)
Theorem import_without_expansion (dict_functionals : Dict.t FunctionalSpec)
    (dashcoeff : Dict.t (Dict.t CoeffRow)) :
  Forall (fun item : string * FunctionalSpec =>
            is_Some (f_dispersion item.2)) dict_functionals ->
  exists w,
    build_functionals dict_functionals dashcoeff = Ok w /\
    heap w = dict_functionals.*2.
Proof.
  intros Hall. unfold build_functionals.
  destruct (loop_all_dispersion dashcoeff 0 dict_functionals
              {| heap := dict_functionals.*2; functionals := ∅ |} Hall)
    as (w & Hrun & Hheap). eauto.
Qed.

(** *** What the heap and the alias table hold *)

Section Invariant.

Context (defs : Dict.t FunctionalSpec).
Context (dashcoeff : Dict.t (Dict.t CoeffRow)).

Lemma registered_soundly_prefix (w w' : World) (key : string) (ref : nat) :
  heap w `prefix_of` heap w' ->
  registered_soundly defs w key ref -> registered_soundly defs w' key ref.
Proof.
  intros Hpre [Hbase|(parent & s & t & row & a & Hheap & Hrest)];
    [by left|right].
  exists parent, s, t, row, a. split; [|done].
  by eapply prefix_lookup_Some.
Qed.

Lemma table_fold_ind (P : World -> Prop) (parent : FunctionalSpec)
    (aliases : list string) (dn dt : string) (rows : Dict.t CoeffRow)
    (w : World) :
  (forall item w0, item ∈ rows -> P w0 ->
                   P (row_step parent aliases dn dt w0 item)) ->
  P w -> P (fold_left (row_step parent aliases dn dt) rows w).
Proof.
  revert w. induction rows as [|item rows IH]; intros w Hstep Hw; [done|].
  simpl. apply IH.
  - intros item' w0 Hin. apply Hstep. by right.
  - apply Hstep; [by left|done].
Qed.

Lemma row_step_invariant (parent : FunctionalSpec) (dn dt : string)
    (table : Dict.t CoeffRow) (item : string * CoeffRow) (w : World) :
  parent ∈ defs.*2 -> f_dispersion parent = None ->
  (dn, dt) ∈ dispersion_names -> Dict.get dt dashcoeff = Some table ->
  item ∈ table ->
  import_invariant defs dashcoeff w ->
  import_invariant defs dashcoeff
    (row_step parent (get_functional_aliases parent) dn dt w item).
Proof.
  intros Hparent Hd Hdn Hget Hitem [(variants & Hheap & Hvariants) Htable].
  pose proof (row_step_lookup parent (get_functional_aliases parent) dn dt w
                item) as Hlook.
  pose proof (row_step_prefix parent (get_functional_aliases parent) dn dt w
                item) as Hpre.
  unfold row_step in *.
  destruct (bool_decide (Str.upper item.1 ∈ get_functional_aliases parent))
    eqn:Hmatch; [|by split; eauto].
  apply bool_decide_eq_true_1 in Hmatch. simpl in *. split.
  - exists (variants ++ [dispersion_variant parent dt item.2]).
    split; [by rewrite Hheap, app_assoc|].
    apply Forall_app. split; [done|]. apply Forall_singleton.
    exists parent, dn, dt, table, item.1, item.2.
    by destruct item.
  - intros key ref. rewrite Hlook. case_decide as Hkey.
    + intros [= <-]. right.
      apply list_elem_of_fmap in Hkey as (a & -> & Ha).
      exists parent, dn, dt, item.2, a.
      split; [simpl; by rewrite lookup_app_r, Nat.sub_diag|done].
    + intros Href. eapply registered_soundly_prefix; [exact Hpre|].
      by apply Htable.
Qed.

Lemma process_invariant (ref : nat) (n : string) (functional : FunctionalSpec)
    (w w' : World) :
  defs !! ref = Some (n, functional) ->
  import_invariant defs dashcoeff w ->
  process_functional dashcoeff ref functional w = Ok w' ->
  import_invariant defs dashcoeff w'.
Proof.
  intros Hdef [Hheap Htable]. unfold process_functional.
  assert (functional ∈ defs.*2) as Hin.
  { apply list_elem_of_fmap. exists (n, functional). split; [done|].
    by eapply list_elem_of_lookup_2. }
  set (w1 := {| heap := heap w;
                functionals := register id ref
                                 (get_functional_aliases functional)
                                 (functionals w) |}).
  assert (import_invariant defs dashcoeff w1) as Hw1.
  { split; [done|]. intros key target. simpl. rewrite register_lookup.
    rewrite map_id. case_decide.
    - intros [= <-]. left. eauto.
    - apply Htable. }
  case_bool_decide as Hd; [by intros [= <-]|].
  assert (f_dispersion functional = None) as Hnone.
  { destruct (f_dispersion functional); [|done]. destruct Hd. eauto. }
  apply (names_fold_ind dashcoeff functional
           (get_functional_aliases functional)
           (import_invariant defs dashcoeff)); [|done].
  intros [dn dt] table w0 Hdn Hget Hw0. simpl in *.
  apply table_fold_ind; [|done].
  intros item w2 Hitem Hw2. by eapply row_step_invariant.
Qed.

Lemma loop_invariant (ref : nat) (rest : Dict.t FunctionalSpec)
    (w w' : World) :
  drop ref defs = rest ->
  import_invariant defs dashcoeff w ->
  registry_loop dashcoeff ref rest w = Ok w' ->
  import_invariant defs dashcoeff w'.
Proof.
  revert ref w. induction rest as [|[n f] rest IH]; intros ref w Hdrop Hw;
    simpl.
  - by intros [= <-].
  - destruct (process_functional dashcoeff ref f w) as [w1|e] eqn:Hp;
      simpl; [|done].
    assert (defs !! ref = Some (n, f)) as Hdef.
    { pose proof (lookup_drop defs ref 0) as Hl.
      rewrite Hdrop, Nat.add_0_r in Hl. symmetry. exact Hl. }
    apply (IH (S ref) w1).
    + pose proof (drop_drop defs 1 ref) as Hdd.
      rewrite Hdrop, Nat.add_1_r in Hdd. symmetry. exact Hdd.
    + by eapply process_invariant.
Qed.

Lemma import_invariant_holds (w : World) :
  build_functionals defs dashcoeff = Ok w ->
  import_invariant defs dashcoeff w.
Proof.
  unfold build_functionals. apply loop_invariant; [done|].
  split.
  - exists []. split; [by rewrite app_nil_r|constructor].
  - intros key ref. simpl. by rewrite lookup_empty.
Qed.

End Invariant.

(** After the import the heap holds the definitions of the source,
    unchanged and in their order, followed by the copies; every copy
    is a definition without ["dispersion"], renamed and given the
    dispersion dictionary of a scheme of the alias table, with a row
    of the coefficient table whose key matches one of its names. *)
Theorem import_heap (dict_functionals : Dict.t FunctionalSpec)
    (dashcoeff : Dict.t (Dict.t CoeffRow)) (w : World) :
  build_functionals dict_functionals dashcoeff = Ok w ->
  exists variants,
    heap w = dict_functionals.*2 ++ variants /\
    Forall (is_variant_from dict_functionals dashcoeff) variants.
Proof. intros Hrun. by apply import_invariant_holds in Hrun as [? _]. Qed.

(** After the import every key of the alias table refers to a
    functional dictionary of the heap.  It is either the definition
    at that place of the source, and the key is one of its upper-cased
    names, or a dispersion copy, and the key is an upper-cased name of
    its parent followed by a hyphen and the upper-cased short name of
    the very scheme the copy was made for. *)
Theorem import_table_sound (dict_functionals : Dict.t FunctionalSpec)
    (dashcoeff : Dict.t (Dict.t CoeffRow)) (w : World) (key : string)
    (ref : nat) :
  build_functionals dict_functionals dashcoeff = Ok w ->
  functionals w !! key = Some ref ->
  exists func,
    heap w !! ref = Some func /\
    ((exists n, dict_functionals !! ref = Some (n, func)) /\
     key ∈ get_functional_aliases func \/
     exists parent s row a,
       func = dispersion_variant parent (disp_type_of func) row /\
       parent ∈ dict_functionals.*2 /\
       (s, disp_type_of func) ∈ dispersion_names /\
       a ∈ get_functional_aliases parent /\
       key = a +:+ "-" +:+ Str.upper s).
Proof.
  intros Hrun Hkey.
  apply import_invariant_holds in Hrun as [(variants & Hheap & _) Htable].
  destruct (Htable key ref Hkey)
    as [(n & f & Hdef & Halias)|(parent & s & t & row & a & Hcell & Hrest)].
  - exists f. split.
    + rewrite Hheap. apply lookup_app_l_Some.
      unfold Dict.t in *. by rewrite list_lookup_fmap, Hdef.
    + left. eauto.
  - exists (dispersion_variant parent t row). split; [done|]. right.
    exists parent, s, row, a. done.
Qed.

(** ** A call of the constructor, from lookup to return *)

Lemma with_defaults_twice (func : FunctionalSpec) :
  with_defaults (with_defaults func) = with_defaults func.
Proof.
  destruct func as [n al xc x [[[a|] b o u]|] c mp cit descr [[t p [ct|]]|]];
    reflexivity.
Qed.

Lemma check_consistency_with_defaults (g_name : option string)
    (func : FunctionalSpec) (name : string) :
  check_consistency g_name (with_defaults func) name
  = check_consistency g_name func name.
Proof.
  destruct func as [n al xc x [[[a|] b o u]|] c mp cit descr d]; reflexivity.
Qed.

Lemma world_insert_id (w : World) (ref : nat) (func : FunctionalSpec) :
  heap w !! ref = Some func ->
  {| heap := <[ref := func]> (heap w); functionals := functionals w |} = w.
Proof. intros Hheap. rewrite list_insert_id by done. by destruct w. Qed.

(** the constructor on a registered name, in terms of its run on the
    dictionary the name refers to *)
Lemma build_registered (core : Core) (g_name : option string) (w : World)
    (name : string) (npoints deriv : Z) (restricted : bool) (ref : nat)
    (func : FunctionalSpec) :
  functionals w !! name = Some ref -> heap w !! ref = Some func ->
  build_superfunctional_from_dictionary core g_name w name npoints deriv
    restricted
  = let run := build_from core g_name func name npoints deriv restricted in
    (run.1, {| heap := <[ref := run.2]> (heap w);
               functionals := functionals w |}).
Proof.
  intros Hreg Hheap. unfold build_superfunctional_from_dictionary.
  rewrite Hreg, Hheap.
  by destruct (build_from core g_name func name npoints deriv restricted).
Qed.

Lemma build_state (core : Core) (g_name : option string)
    (w : World) (name : string) (npoints deriv : Z) (restricted : bool) :
  let run := build_superfunctional_from_dictionary core g_name w name npoints
               deriv restricted in
  match run.1 with
  | Raise _ => run.2 = w
  | Ok _ =>
      exists ref func,
        functionals w !! name = Some ref /\ heap w !! ref = Some func /\
        run.2 = {| heap := <[ref := with_defaults func]> (heap w);
                   functionals := functionals w |}
  end.
Proof.
  cbv zeta. unfold build_superfunctional_from_dictionary.
  destruct (functionals w !! name) as [ref|] eqn:Hreg; [|done].
  destruct (heap w !! ref) as [func|] eqn:Hheap; [|done].
  pose proof (build_from_state core g_name func name npoints deriv restricted)
    as Hst.
  destruct (build_from core g_name func name npoints deriv restricted)
    as [[v|e] func']; simpl in *; subst func'.
  - exists ref, func. done.
  - by apply world_insert_id.
Qed.

(** A call that ends in an exception has written nothing: the world
    is as before.  A call that returns has stored, in the dictionary
    that [functionals[name]] refers to and nowhere else, the two
    defaults of lines 185 and 235. *)
Theorem build_all_or_nothing (core : Core) (g_name : option string)
    (w : World) (name : string) (npoints deriv : Z) (restricted : bool) :
  let run := build_superfunctional_from_dictionary core g_name w name npoints
               deriv restricted in
  match run.1 with
  | Raise _ => run.2 = w
  | Ok _ =>
      exists ref func,
        functionals w !! name = Some ref /\ heap w !! ref = Some func /\
        run.2 = {| heap := <[ref := with_defaults func]> (heap w);
                   functionals := functionals w |}
  end.
Proof. apply build_state. Qed.

(** The exception of the validator is the exception of the
    constructor: nothing is built, and the world is as before. *)
Theorem build_surfaces_validation (core : Core) (g_name : option string)
    (w : World) (name : string) (npoints deriv : Z) (restricted : bool)
    (ref : nat) (func : FunctionalSpec) (e : PyExn) :
  functionals w !! name = Some ref -> heap w !! ref = Some func ->
  check_consistency g_name func name = Raise e ->
  build_superfunctional_from_dictionary core g_name w name npoints deriv
    restricted = (Raise e, w).
Proof.
  intros Hreg Hheap Hcheck.
  rewrite (build_registered core g_name w name npoints deriv restricted ref
             func Hreg Hheap).
  unfold build_from. rewrite Hcheck. simpl. by rewrite world_insert_id.
Qed.

(** A bundled definition whose ["xc_functionals"] is empty passes the
    validator and then stops the constructor with an
    [UnboundLocalError] for [xc_name]; the world is as before. *)
Theorem build_empty_bundle (core : Core) (g_name : option string)
    (w : World) (name : string) (npoints deriv : Z) (restricted : bool)
    (ref : nat) (func : FunctionalSpec) :
  functionals w !! name = Some ref -> heap w !! ref = Some func ->
  f_xc_functionals func = Some [] ->
  f_x_functionals func = None -> f_x_hf func = None ->
  f_c_functionals func = None -> f_c_mp2 func = None ->
  build_superfunctional_from_dictionary core g_name w name npoints deriv
    restricted = (Raise (UnboundLocalError "xc_name"), w).
Proof.
  intros Hreg Hheap Hxc Hx Hhf Hc Hmp.
  rewrite (build_registered core g_name w name npoints deriv restricted ref
             func Hreg Hheap).
  unfold build_from, check_consistency. rewrite Hxc, Hx, Hhf, Hc, Hmp.
  simpl. by rewrite world_insert_id.
Qed.

Lemma take_dispersion_result (dispersion : option Dispersion) :
  (take_dispersion dispersion).1 = fill_citation <$> dispersion.
Proof. by destruct dispersion. Qed.

(** what a returning run of the constructor went through *)
Lemma build_from_ok_inv (core : Core) (g_name : option string)
    (func func' : FunctionalSpec) (name : string) (npoints deriv : Z)
    (restricted : bool) (sup : SuperFunctional)
    (dispersion : option Dispersion) :
  build_from core g_name func name npoints deriv restricted
  = (Ok (sup, dispersion), func') ->
  check_consistency g_name func name = Ok tt /\
  dispersion = fill_citation <$> f_dispersion func /\
  func' = with_defaults func /\
  exists sup0,
    sup = finalize name npoints deriv (apply_overrides func sup0) /\
    match f_xc_functionals func with
    | Some xc_functionals =>
        build_bundled core name restricted xc_functionals = Ok sup0
    | None => sup0 = (build_composite core restricted func).1
    end.
Proof.
  intros Hrun.
  pose proof (build_from_state core g_name func name npoints deriv restricted)
    as Hst. cbv zeta in Hst. rewrite Hrun in Hst. simpl in Hst.
  unfold build_from in Hrun.
  destruct (check_consistency g_name func name) as [[]|e0]; [|done].
  split; [done|].
  destruct (f_xc_functionals func) as [xc|].
  - destruct (build_bundled core name restricted xc) as [sup0|e0]; [|done].
    pose proof (take_dispersion_result (f_dispersion func)) as Htd.
    destruct (take_dispersion (f_dispersion func)) as [d0 d1].
    simpl in Htd. injection Hrun as <- <- _.
    split; [done|]. split; [done|]. by exists sup0.
  - destruct (build_composite core restricted func) as [sup0 func1] eqn:Hbc.
    pose proof (build_composite_state core restricted func) as Hf1.
    rewrite Hbc in Hf1. simpl in Hf1. subst func1.
    change (f_dispersion (with_x_hf (fill_alpha <$> f_x_hf func) func))
      with (f_dispersion func) in Hrun.
    pose proof (take_dispersion_result (f_dispersion func)) as Htd.
    destruct (take_dispersion (f_dispersion func)) as [d0 d1].
    simpl in Htd. injection Hrun as <- <- _.
    split; [done|]. split; [done|]. by exists sup0.
Qed.

Lemma build_ok_inv (core : Core) (g_name : option string) (w w' : World)
    (name : string) (npoints deriv : Z) (restricted : bool) (ref : nat)
    (func : FunctionalSpec) (sup : SuperFunctional)
    (dispersion : option Dispersion) :
  functionals w !! name = Some ref -> heap w !! ref = Some func ->
  build_superfunctional_from_dictionary core g_name w name npoints deriv
    restricted = (Ok (sup, dispersion), w') ->
  build_from core g_name func name npoints deriv restricted
  = (Ok (sup, dispersion), with_defaults func) /\
  w' = {| heap := <[ref := with_defaults func]> (heap w);
          functionals := functionals w |}.
Proof.
  intros Hreg Hheap.
  rewrite (build_registered core g_name w name npoints deriv restricted ref
             func Hreg Hheap).
  destruct (build_from core g_name func name npoints deriv restricted)
    as [r func'] eqn:Hrun. simpl. intros [= -> <-].
  apply build_from_ok_inv in Hrun as Hinv.
  destruct Hinv as (_ & _ & -> & _). done.
Qed.

(** The second value returned is [False] (here [None]) exactly when
    the definition has no ["dispersion"]; otherwise it is the
    dispersion dictionary of the definition with a ["citation"], the
    text it had or [False], and it is what the registry holds after
    the call. *)
Theorem build_returns_dispersion (core : Core) (g_name : option string)
    (w w' : World) (name : string) (npoints deriv : Z) (restricted : bool)
    (ref : nat) (func : FunctionalSpec) (sup : SuperFunctional)
    (dispersion : option Dispersion) :
  functionals w !! name = Some ref -> heap w !! ref = Some func ->
  build_superfunctional_from_dictionary core g_name w name npoints deriv
    restricted = (Ok (sup, dispersion), w') ->
  dispersion = fill_citation <$> f_dispersion func /\
  (f_dispersion <$> heap w' !! ref) = Some dispersion /\
  (forall d_params, dispersion = Some d_params ->
                    is_Some (disp_citation d_params)).
Proof.
  intros Hreg Hheap Hrun.
  destruct (build_ok_inv core g_name w w' name npoints deriv restricted ref
              func sup dispersion Hreg Hheap Hrun) as [Hfrom ->].
  apply build_from_ok_inv in Hfrom as (_ & -> & _).
  split; [done|]. split.
  - simpl. rewrite list_lookup_insert_eq by (by eapply lookup_lt_Some).
    reflexivity.
  - intros d_params Hd. destruct (f_dispersion func) as [dp|]; [|done].
    injection Hd as <-. unfold fill_citation.
    destruct (disp_citation dp) eqn:Hc; simpl; rewrite ?Hc; eauto.
Qed.

Lemma build_ok_registered (core : Core) (g_name : option string)
    (w w' : World) (name : string) (npoints deriv : Z) (restricted : bool)
    (v : SuperFunctional * option Dispersion) :
  build_superfunctional_from_dictionary core g_name w name npoints deriv
    restricted = (Ok v, w') ->
  exists ref func,
    functionals w !! name = Some ref /\ heap w !! ref = Some func.
Proof.
  unfold build_superfunctional_from_dictionary.
  destruct (functionals w !! name) as [ref|] eqn:Hreg; [|done].
  destruct (heap w !! ref) as [func|] eqn:Hheap; [|done].
  intros _. exists ref, func. split; [reflexivity|exact Hheap].
Qed.

(** Whatever the definition, an object that the constructor returns
    carries the upper-cased name it was asked for, the number of
    points and the derivative order of the call, and has been
    allocated. *)
Theorem build_finalizes (core : Core) (g_name : option string)
    (w w' : World) (name : string) (npoints deriv : Z) (restricted : bool)
    (sup : SuperFunctional) (dispersion : option Dispersion) :
  build_superfunctional_from_dictionary core g_name w name npoints deriv
    restricted = (Ok (sup, dispersion), w') ->
  sf_name sup = Str.upper name /\ sf_max_points sup = npoints /\
  sf_deriv sup = deriv /\ sf_allocated sup = true.
Proof.
  intros Hrun.
  destruct (build_ok_registered _ _ _ _ _ _ _ _ _ Hrun)
    as (ref & func & Hreg & Hheap).
  destruct (build_ok_inv core g_name w w' name npoints deriv restricted ref
              func sup dispersion Hreg Hheap Hrun) as [Hfrom _].
  apply build_from_ok_inv in Hfrom as (_ & _ & _ & sup0 & -> & _). done.
Qed.

(** A ["citation"] or a ["description"] given at the top of the
    definition is the citation or the description of the returned
    object, whatever its components report. *)
Theorem build_overrides_texts (core : Core) (g_name : option string)
    (w w' : World) (name : string) (npoints deriv : Z) (restricted : bool)
    (ref : nat) (func : FunctionalSpec) (sup : SuperFunctional)
    (dispersion : option Dispersion) :
  functionals w !! name = Some ref -> heap w !! ref = Some func ->
  build_superfunctional_from_dictionary core g_name w name npoints deriv
    restricted = (Ok (sup, dispersion), w') ->
  (forall text, f_citation func = Some text -> sf_citation sup = text) /\
  (forall text, f_description func = Some text -> sf_description sup = text).
Proof.
  intros Hreg Hheap Hrun.
  destruct (build_ok_inv core g_name w w' name npoints deriv restricted ref
              func sup dispersion Hreg Hheap Hrun) as [Hfrom _].
  apply build_from_ok_inv in Hfrom as (_ & _ & _ & sup0 & -> & _).
  unfold apply_overrides.
  split; intros text Htext; rewrite Htext; simpl;
    by destruct (f_description func), (f_citation func).
Qed.

Lemma build_state_cases (core : Core) (g_name : option string)
    (w : World) (name : string) (npoints deriv : Z) (restricted : bool)
    (ref : nat) (func : FunctionalSpec) :
  functionals w !! name = Some ref -> heap w !! ref = Some func ->
  let w1 := (build_superfunctional_from_dictionary core g_name w name npoints
               deriv restricted).2 in
  w1 = w \/
  w1 = {| heap := <[ref := with_defaults func]> (heap w);
          functionals := functionals w |}.
Proof.
  intros Hreg Hheap.
  pose proof (build_state core g_name w name npoints deriv
                restricted) as Hst. cbv zeta in *.
  destruct (build_superfunctional_from_dictionary core g_name w name npoints
              deriv restricted) as [[v|e] w1]; simpl in *; [|by left].
  destruct Hst as (ref' & func' & Hreg' & Hheap' & ->). right.
  rewrite Hreg in Hreg'. injection Hreg' as <-.
  rewrite Hheap in Hheap'. by injection Hheap' as <-.
Qed.

(** A second call with the same arguments changes nothing more: the
    world after it is the world after the first call. *)
Theorem build_again_state (core : Core) (g_name : option string)
    (w : World) (name : string) (npoints deriv : Z) (restricted : bool) :
  let w1 := (build_superfunctional_from_dictionary core g_name w name npoints
               deriv restricted).2 in
  (build_superfunctional_from_dictionary core g_name w1 name npoints deriv
     restricted).2 = w1.
Proof.
  cbv zeta.
  destruct (functionals w !! name) as [ref|] eqn:Hreg.
  2:{ rewrite (build_unregistered core g_name w name npoints deriv
                 restricted Hreg). simpl.
      by rewrite (build_unregistered core g_name w name npoints deriv
                    restricted Hreg). }
  destruct (heap w !! ref) as [func|] eqn:Hheap.
  2:{ assert (build_superfunctional_from_dictionary core g_name w name
                npoints deriv restricted = (Raise (KeyError name), w)) as ->
        by (unfold build_superfunctional_from_dictionary;
            by rewrite Hreg, Hheap).
      simpl. unfold build_superfunctional_from_dictionary.
      by rewrite Hreg, Hheap. }
  assert (ref < length (heap w))%nat as Hlt by (by eapply lookup_lt_Some).
  destruct (build_state_cases core g_name w name npoints deriv restricted ref
              func Hreg Hheap) as [Hsame|Hnew]; cbv zeta in *.
  - rewrite Hsame. exact Hsame.
  - rewrite Hnew.
    set (w1 := {| heap := <[ref := with_defaults func]> (heap w);
                  functionals := functionals w |}).
    assert (heap w1 !! ref = Some (with_defaults func)) as Hheap1
      by (by apply list_lookup_insert_eq).
    destruct (build_state_cases core g_name w1 name npoints deriv restricted
                ref (with_defaults func) Hreg Hheap1) as [Hsame|Hnew1];
      cbv zeta in *; [exact Hsame|].
    rewrite Hnew1. unfold w1. simpl.
    by rewrite list_insert_insert_eq, with_defaults_twice.
Qed.

Lemma set_x_alpha_id (v : float) (sup : SuperFunctional) :
  sf_x_alpha sup = v -> Sup.set_x_alpha v sup = sup.
Proof. intros <-. by destruct sup. Qed.

Lemma apply_x_hf_filled (core : Core) (restricted : bool)
    (x_hf : option XHF) (x_HF : CamCoef) (sup : SuperFunctional) :
  sf_x_alpha sup = 0%float ->
  (apply_x_hf core restricted (fill_alpha <$> x_hf) x_HF sup).1
  = (apply_x_hf core restricted x_hf x_HF sup).1.
Proof.
  intros Hzero. destruct x_hf as [[[a|] b o u]|]; try reflexivity.
  simpl. by rewrite (set_x_alpha_id _ _ Hzero).
Qed.

Lemma build_composite_filled (core : Core) (restricted : bool)
    (func : FunctionalSpec) :
  sf_x_alpha (blank core) = 0%float ->
  (build_composite core restricted (with_defaults func)).1
  = (build_composite core restricted func).1.
Proof.
  intros Hzero. destruct func as [n al xc x x_hf c mp cit descr d].
  unfold build_composite, with_defaults. simpl.
  match goal with
  | |- context [apply_x_hf core restricted (fill_alpha <$> x_hf) ?h ?s] =>
      assert (sf_x_alpha s = 0%float) as Hs;
      [|pose proof (apply_x_hf_filled core restricted x_hf h s Hs) as Heq;
        destruct (apply_x_hf core restricted (fill_alpha <$> x_hf) h s)
          as [sup1 x1];
        destruct (apply_x_hf core restricted x_hf h s) as [sup2 x2]]
  end.
  - destruct x as [x_funcs|]; [|done].
    rewrite <- Hzero. apply (x_fold_mixing core restricted x_funcs).
  - simpl in Heq. by subst sup2.
Qed.

Lemma build_from_filled (core : Core) (g_name : option string)
    (func : FunctionalSpec) (name : string) (npoints deriv : Z)
    (restricted : bool) :
  sf_x_alpha (blank core) = 0%float ->
  (build_from core g_name (with_defaults func) name npoints deriv
     restricted).1
  = (build_from core g_name func name npoints deriv restricted).1.
Proof.
  intros Hzero. unfold build_from.
  rewrite check_consistency_with_defaults.
  destruct (check_consistency g_name func name) as [[]|e]; [|done].
  change (f_xc_functionals (with_defaults func))
    with (f_xc_functionals func).
  destruct (f_xc_functionals func) as [xc|].
  - destruct (build_bundled core name restricted xc) as [sup0|e]; [|done].
    change (f_dispersion (with_defaults func))
      with (fill_citation <$> f_dispersion func).
    change (apply_overrides (with_defaults func) sup0)
      with (apply_overrides func sup0).
    by destruct (f_dispersion func) as [[t p [ct|]]|].
  - pose proof (build_composite_filled core restricted func Hzero) as Heq.
    pose proof (build_composite_state core restricted func) as Hs1.
    pose proof (build_composite_state core restricted (with_defaults func))
      as Hs2.
    destruct (build_composite core restricted (with_defaults func))
      as [sup1 f1].
    destruct (build_composite core restricted func) as [sup2 f2].
    simpl in *. subst sup2 f1 f2.
    destruct func as [n al xc x x_hf c mp cit descr [[t p [ct|]]|]];
      reflexivity.
Qed.

(** With a blank composite whose exchange alpha starts at 0.0, a
    second call with the same arguments returns what the first call
    returned, although the first call has written to the registry. *)
Theorem build_again_result (core : Core) (g_name : option string)
    (w : World) (name : string) (npoints deriv : Z) (restricted : bool) :
  sf_x_alpha (blank core) = 0%float ->
  let run := build_superfunctional_from_dictionary core g_name w name npoints
               deriv restricted in
  (build_superfunctional_from_dictionary core g_name run.2 name npoints deriv
     restricted).1 = run.1.
Proof.
  intros Hzero. cbv zeta.
  pose proof (build_state core g_name w name npoints deriv
                restricted) as Hst. cbv zeta in Hst.
  destruct (build_superfunctional_from_dictionary core g_name w name npoints
              deriv restricted) as [[v|e] w1] eqn:Hrun; simpl in *.
  - destruct Hst as (ref & func & Hreg & Hheap & ->).
    rewrite (build_registered core g_name w name npoints deriv restricted
               ref func Hreg Hheap) in Hrun.
    assert (ref < length (heap w))%nat as Hlt by (by eapply lookup_lt_Some).
    rewrite (build_registered core g_name
               {| heap := <[ref := with_defaults func]> (heap w);
                  functionals := functionals w |}
               name npoints deriv restricted
               ref (with_defaults func) Hreg
               (list_lookup_insert_eq _ _ _ Hlt)).
    cbv zeta. cbn [fst]. rewrite (build_from_filled core g_name func name
                                    npoints deriv restricted Hzero).
    cbv zeta in Hrun. by injection Hrun as -> _.
  - subst w1. by rewrite Hrun.
Qed.

(** ** The composite branch, component by component *)

Section Composite.

Context (core : Core) (restricted : bool).

Lemma x_step_component (acc : XAcc) (item : string * XParams) :
  let x_func := x_component core restricted item in
  acc_sup (x_step core restricted acc item)
  = Sup.add_x_functional x_func (acc_sup acc) /\
  acc_citation (x_step core restricted acc item)
  = append_new (lx_citation x_func) (acc_citation acc) /\
  acc_descr (x_step core restricted acc item)
  = append_new (lx_description x_func) (acc_descr acc).
Proof. done. Qed.

Lemma c_step_component (acc : XAcc) (item : string * CParams) :
  let c_func := c_component core restricted item in
  acc_sup (c_step core restricted acc item)
  = Sup.add_c_functional c_func (acc_sup acc) /\
  acc_citation (c_step core restricted acc item)
  = append_new (lx_citation c_func) (acc_citation acc) /\
  acc_descr (c_step core restricted acc item)
  = append_new (lx_description c_func) (acc_descr acc).
Proof. done. Qed.

Lemma x_fold_sup (l : Dict.t XParams) (acc : XAcc) :
  acc_sup (fold_left (x_step core restricted) l acc)
  = fold_left (fun s x => Sup.add_x_functional x s)
              (map (x_component core restricted) l) (acc_sup acc).
Proof.
  revert acc. induction l as [|item l IH]; intros acc; simpl; [done|].
  by rewrite IH.
Qed.

Lemma c_fold_sup (l : Dict.t CParams) (acc : XAcc) :
  acc_sup (fold_left (c_step core restricted) l acc)
  = fold_left (fun s c => Sup.add_c_functional c s)
              (map (c_component core restricted) l) (acc_sup acc).
Proof.
  revert acc. induction l as [|item l IH]; intros acc; simpl; [done|].
  by rewrite IH.
Qed.

Lemma x_fold_texts (l : Dict.t XParams) (acc : XAcc) :
  acc_citation (fold_left (x_step core restricted) l acc)
  = collect_new (acc_citation acc)
      (map lx_citation (map (x_component core restricted) l)) /\
  acc_descr (fold_left (x_step core restricted) l acc)
  = collect_new (acc_descr acc)
      (map lx_description (map (x_component core restricted) l)).
Proof.
  revert acc. induction l as [|item l IH]; intros acc; simpl; [done|].
  destruct (IH (x_step core restricted acc item)) as [-> ->]. done.
Qed.

Lemma c_fold_texts (l : Dict.t CParams) (acc : XAcc) :
  acc_citation (fold_left (c_step core restricted) l acc)
  = collect_new (acc_citation acc)
      (map lx_citation (map (c_component core restricted) l)) /\
  acc_descr (fold_left (c_step core restricted) l acc)
  = collect_new (acc_descr acc)
      (map lx_description (map (c_component core restricted) l)).
Proof.
  revert acc. induction l as [|item l IH]; intros acc; simpl; [done|].
  destruct (IH (c_step core restricted acc item)) as [-> ->]. done.
Qed.

Lemma add_x_fold (xs : list LibXCFunctional) (s : SuperFunctional) :
  fold_left (fun s x => Sup.add_x_functional x s) xs s
  = {| sf_name := sf_name s; sf_description := sf_description s;
       sf_citation := sf_citation s;
       sf_x_functionals := sf_x_functionals s ++ xs;
       sf_c_functionals := sf_c_functionals s;
       sf_x_alpha := sf_x_alpha s; sf_x_beta := sf_x_beta s;
       sf_x_omega := sf_x_omega s; sf_c_alpha := sf_c_alpha s;
       sf_c_ss_alpha := sf_c_ss_alpha s; sf_c_os_alpha := sf_c_os_alpha s;
       sf_max_points := sf_max_points s; sf_deriv := sf_deriv s;
       sf_is_gga := sf_is_gga s; sf_allocated := sf_allocated s |}.
Proof.
  revert s. induction xs as [|x xs IH]; intros s; simpl.
  - rewrite app_nil_r. by destruct s.
  - rewrite IH. simpl. by rewrite <- app_assoc.
Qed.

Lemma add_c_fold (cs : list LibXCFunctional) (s : SuperFunctional) :
  fold_left (fun s c => Sup.add_c_functional c s) cs s
  = {| sf_name := sf_name s; sf_description := sf_description s;
       sf_citation := sf_citation s;
       sf_x_functionals := sf_x_functionals s;
       sf_c_functionals := sf_c_functionals s ++ cs;
       sf_x_alpha := sf_x_alpha s; sf_x_beta := sf_x_beta s;
       sf_x_omega := sf_x_omega s; sf_c_alpha := sf_c_alpha s;
       sf_c_ss_alpha := sf_c_ss_alpha s; sf_c_os_alpha := sf_c_os_alpha s;
       sf_max_points := sf_max_points s; sf_deriv := sf_deriv s;
       sf_is_gga := sf_is_gga s; sf_allocated := sf_allocated s |}.
Proof.
  revert s. induction cs as [|c cs IH]; intros s; simpl.
  - rewrite app_nil_r. by destruct s.
  - rewrite IH. simpl. by rewrite <- app_assoc.
Qed.

Lemma collect_new_app (acc l1 l2 : list string) :
  collect_new acc (l1 ++ l2) = collect_new (collect_new acc l1) l2.
Proof. apply fold_left_app. Qed.

(** the object that lines 153-224 leave, stage by stage *)
Lemma build_composite_form (func : FunctionalSpec) :
  let x_funcs := default [] (f_x_functionals func) in
  let c_funcs := default [] (f_c_functionals func) in
  let acc_x := fold_left (x_step core restricted) x_funcs
                 {| acc_sup := blank core; acc_citation := [];
                    acc_descr := [];
                    acc_x_HF := {| ALPHA := 0; OMEGA := 0; BETA := 0 |} |} in
  let with_x :=
    fold_left (fun s x => Sup.add_x_functional x s)
              (map (x_component core restricted) x_funcs) (blank core) in
  let mixed :=
    (apply_x_hf core restricted (f_x_hf func) (acc_x_HF acc_x) with_x).1 in
  let with_c :=
    fold_left (fun s c => Sup.add_c_functional c s)
              (map (c_component core restricted) c_funcs) mixed in
  (build_composite core restricted func).1
  = Sup.set_description
      (Str.join Str.newline
         (collect_new [] (map lx_description
                            (components core restricted func))))
      (Sup.set_citation
         (Str.join Str.newline
            (collect_new [] (map lx_citation
                               (components core restricted func))))
         (apply_c_mp2 (f_c_mp2 func) with_c)).
Proof.
  cbv zeta. unfold build_composite, components.
  rewrite !map_app, !collect_new_app.
  assert (forall acc0,
            match f_x_functionals func with
            | Some x_funcs => fold_left (x_step core restricted) x_funcs acc0
            | None => acc0
            end
            = fold_left (x_step core restricted)
                (default [] (f_x_functionals func)) acc0) as Hx
    by (intros acc0; by destruct (f_x_functionals func)).
  rewrite Hx. clear Hx.
  set (acc_x := fold_left (x_step core restricted)
                  (default [] (f_x_functionals func)) _).
  assert (acc_sup acc_x
          = fold_left (fun s x => Sup.add_x_functional x s)
              (map (x_component core restricted)
                 (default [] (f_x_functionals func))) (blank core)) as <-
    by apply x_fold_sup.
  destruct (x_fold_texts (default [] (f_x_functionals func))
              {| acc_sup := blank core; acc_citation := []; acc_descr := [];
                 acc_x_HF := {| ALPHA := 0; OMEGA := 0; BETA := 0 |} |})
    as [Hcit Hdescr].
  fold acc_x in Hcit, Hdescr. simpl in Hcit, Hdescr.
  rewrite <- Hcit, <- Hdescr.
  destruct (apply_x_hf core restricted (f_x_hf func) (acc_x_HF acc_x)
              (acc_sup acc_x)) as [sup x_hf]. simpl.
  assert (forall acc0,
            match f_c_functionals func with
            | Some c_funcs => fold_left (c_step core restricted) c_funcs acc0
            | None => acc0
            end
            = fold_left (c_step core restricted)
                (default [] (f_c_functionals func)) acc0) as Hc
    by (intros acc0; by destruct (f_c_functionals func)).
  rewrite Hc. clear Hc.
  destruct (c_fold_texts (default [] (f_c_functionals func))
              (with_sup (fun _ => sup) acc_x)) as [-> ->].
  by rewrite c_fold_sup.
Qed.

End Composite.

Lemma append_new_spec (s : string) (l : list string) :
  NoDup l ->
  NoDup (append_new s l) /\
  forall t, t ∈ append_new s l <-> t ∈ l \/ t = s.
Proof.
  intros Hl. unfold append_new. case_bool_decide as Hin.
  - split; [done|]. intros t. split; [by left|].
    by intros [Ht| ->].
  - split.
    + apply NoDup_app. split; [done|]. split; [|apply NoDup_singleton].
      intros t Ht ->%list_elem_of_singleton. done.
    + intros t. rewrite elem_of_app, list_elem_of_singleton. done.
Qed.

Lemma collect_new_spec (acc l : list string) :
  NoDup acc ->
  NoDup (collect_new acc l) /\
  forall t, t ∈ collect_new acc l <-> t ∈ acc \/ t ∈ l.
Proof.
  unfold collect_new. revert acc.
  induction l as [|s l IH]; intros acc Hacc; simpl.
  - split; [done|]. intros t. split; [by left|].
    intros [Ht|Ht]; [done|by apply elem_of_nil in Ht].
  - destruct (append_new_spec s acc Hacc) as [Hnd Hmem].
    destruct (IH (append_new s acc) Hnd) as [Hnd' Hmem'].
    split; [done|]. intros t. rewrite Hmem', Hmem, elem_of_cons. tauto.
Qed.

Lemma collect_new_nodup (acc l : list string) :
  NoDup (acc ++ l) -> collect_new acc l = acc ++ l.
Proof.
  unfold collect_new. revert acc.
  induction l as [|s l IH]; intros acc Hnd; simpl; [by rewrite app_nil_r|].
  assert (s ∉ acc) as Hs.
  { apply NoDup_app in Hnd as (_ & Hdis & _). intros Hin.
    apply (Hdis s Hin). by left. }
  unfold append_new at 2. rewrite bool_decide_eq_false_2 by done.
  rewrite IH; [by rewrite <- app_assoc|]. by rewrite <- app_assoc.
Qed.

Lemma finalize_overrides_keep (func : FunctionalSpec) (name : string)
    (npoints deriv : Z) (s : SuperFunctional) :
  let s' := finalize name npoints deriv (apply_overrides func s) in
  sf_x_functionals s' = sf_x_functionals s /\
  sf_c_functionals s' = sf_c_functionals s /\
  sf_c_alpha s' = sf_c_alpha s /\ sf_c_ss_alpha s' = sf_c_ss_alpha s /\
  sf_c_os_alpha s' = sf_c_os_alpha s /\
  (f_citation func = None -> sf_citation s' = sf_citation s) /\
  (f_description func = None -> sf_description s' = sf_description s).
Proof.
  unfold apply_overrides.
  destruct (f_citation func), (f_description func); done.
Qed.

Lemma apply_x_hf_keeps (core : Core) (restricted : bool)
    (x_hf : option XHF) (x_HF : CamCoef) (s : SuperFunctional) :
  let s' := (apply_x_hf core restricted x_hf x_HF s).1 in
  sf_x_functionals s' = sf_x_functionals s /\
  sf_c_functionals s' = sf_c_functionals s /\
  sf_c_alpha s' = sf_c_alpha s /\ sf_c_ss_alpha s' = sf_c_ss_alpha s /\
  sf_c_os_alpha s' = sf_c_os_alpha s.
Proof. destruct x_hf as [[[a|] [b|] [o|] u]|]; done. Qed.

Lemma apply_c_mp2_keeps (c_mp2 : option CMP2) (s : SuperFunctional) :
  let s' := apply_c_mp2 c_mp2 s in
  sf_x_functionals s' = sf_x_functionals s /\
  sf_c_functionals s' = sf_c_functionals s.
Proof. destruct c_mp2 as [[[a|] [ss|] [os|]]|]; done. Qed.

Lemma build_composite_ok (core : Core) (g_name : option string)
    (w w' : World) (name : string) (npoints deriv : Z) (restricted : bool)
    (ref : nat) (func : FunctionalSpec) (sup : SuperFunctional)
    (dispersion : option Dispersion) :
  functionals w !! name = Some ref -> heap w !! ref = Some func ->
  f_xc_functionals func = None ->
  build_superfunctional_from_dictionary core g_name w name npoints deriv
    restricted = (Ok (sup, dispersion), w') ->
  sup = finalize name npoints deriv
          (apply_overrides func (build_composite core restricted func).1).
Proof.
  intros Hreg Hheap Hxc Hrun.
  destruct (build_ok_inv core g_name w w' name npoints deriv restricted ref
              func sup dispersion Hreg Hheap Hrun) as [Hfrom _].
  apply build_from_ok_inv in Hfrom as (_ & _ & _ & sup0 & -> & Hsup0).
  rewrite Hxc in Hsup0. by subst sup0.
Qed.

Lemma composite_component_lists (core : Core) (g_name : option string)
    (w w' : World) (name : string) (npoints deriv : Z) (restricted : bool)
    (ref : nat) (func : FunctionalSpec) (sup : SuperFunctional)
    (dispersion : option Dispersion) :
  functionals w !! name = Some ref -> heap w !! ref = Some func ->
  f_xc_functionals func = None ->
  build_superfunctional_from_dictionary core g_name w name npoints deriv
    restricted = (Ok (sup, dispersion), w') ->
  sf_x_functionals sup
  = sf_x_functionals (blank core) ++
    map (x_component core restricted) (default [] (f_x_functionals func)) /\
  sf_c_functionals sup
  = sf_c_functionals (blank core) ++
    map (c_component core restricted) (default [] (f_c_functionals func)).
Proof.
  intros Hreg Hheap Hxc Hrun.
  rewrite (build_composite_ok core g_name w w' name npoints deriv restricted
             ref func sup dispersion Hreg Hheap Hxc Hrun).
  destruct (finalize_overrides_keep func name npoints deriv
              (build_composite core restricted func).1)
    as (-> & -> & _).
  rewrite build_composite_form. simpl.
  match goal with
  | |- context [apply_c_mp2 ?m ?s] =>
      destruct (apply_c_mp2_keeps m s) as [-> ->]
  end.
  rewrite add_c_fold. simpl.
  match goal with
  | |- context [apply_x_hf ?c ?r ?x ?h ?s] =>
      destruct (apply_x_hf_keeps c r x h s) as (-> & -> & _)
  end.
  rewrite add_x_fold. done.
Qed.

(** The object built for a definition without ["xc_functionals"] has
    one exchange component per entry of ["x_functionals"] and one
    correlation component per entry of ["c_functionals"], in the order
    of the entries, after whatever the blank composite started with. *)
Theorem build_components (core : Core) (g_name : option string)
    (w w' : World) (name : string) (npoints deriv : Z) (restricted : bool)
    (ref : nat) (func : FunctionalSpec) (sup : SuperFunctional)
    (dispersion : option Dispersion) :
  functionals w !! name = Some ref -> heap w !! ref = Some func ->
  f_xc_functionals func = None ->
  build_superfunctional_from_dictionary core g_name w name npoints deriv
    restricted = (Ok (sup, dispersion), w') ->
  sf_x_functionals sup
  = sf_x_functionals (blank core) ++
    map (x_component core restricted) (default [] (f_x_functionals func)) /\
  sf_c_functionals sup
  = sf_c_functionals (blank core) ++
    map (c_component core restricted) (default [] (f_c_functionals func)).
Proof. apply composite_component_lists. Qed.

(** Mixing coefficients of the components.  A correlation component
    has the ["alpha"] of its entry, 1.0 when the entry has none.  An
    exchange component has the ["alpha"] of its entry; when the entry
    has none it has 1.0 if the entry is flagged ["use_libxc"], and
    otherwise the coefficient its constructor gave it.  So an
    ["alpha"] given beside ["use_libxc"] wins over the 1.0. *)
Theorem build_component_alphas (core : Core) (g_name : option string)
    (w w' : World) (name : string) (npoints deriv : Z) (restricted : bool)
    (ref : nat) (func : FunctionalSpec) (sup : SuperFunctional)
    (dispersion : option Dispersion) :
  functionals w !! name = Some ref -> heap w !! ref = Some func ->
  f_xc_functionals func = None ->
  build_superfunctional_from_dictionary core g_name w name npoints deriv
    restricted = (Ok (sup, dispersion), w') ->
  exists xs cs,
    sf_x_functionals sup = sf_x_functionals (blank core) ++ xs /\
    sf_c_functionals sup = sf_c_functionals (blank core) ++ cs /\
    Forall2 (fun (item : string * XParams) x =>
               lx_alpha x
               = default
                   (if requests_libxc item.2 then 1%float
                    else lx_alpha (LibXCFunctional_new core
                                     ("XC_" +:+ item.1) restricted))
                   (xp_alpha item.2))
            (default [] (f_x_functionals func)) xs /\
    Forall2 (fun (item : string * CParams) c =>
               lx_alpha c = default 1%float (cp_alpha item.2))
            (default [] (f_c_functionals func)) cs.
Proof.
  intros Hreg Hheap Hxc Hrun.
  destruct (composite_component_lists core g_name w w' name npoints deriv
              restricted ref func sup dispersion Hreg Hheap Hxc Hrun)
    as [Hx Hc].
  eexists _, _. split; [exact Hx|]. split; [exact Hc|]. split.
  - apply Forall2_fmap_r, Forall_Forall2_diag, Forall_forall.
    intros [k [a o t u]] _. unfold x_component, requests_libxc. simpl.
    by destruct u as [[]|], t, a, o.
  - apply Forall2_fmap_r, Forall_Forall2_diag, Forall_forall.
    intros [k [a t]] _. unfold c_component. simpl. by destruct t, a.
Qed.

Lemma composite_texts (core : Core) (restricted : bool)
    (func : FunctionalSpec) :
  let sup := (build_composite core restricted func).1 in
  sf_citation sup
  = Str.join Str.newline
      (collect_new [] (map lx_citation (components core restricted func))) /\
  sf_description sup
  = Str.join Str.newline
      (collect_new [] (map lx_description
                         (components core restricted func))).
Proof. cbv zeta. by rewrite build_composite_form. Qed.

(** Without a ["citation"] at the top of the definition, the citation
    of the built object is the citations of its components, exchange
    first, joined by newlines, each text once, at the place of its
    first occurrence; likewise for the description. *)
Theorem build_joins_texts (core : Core) (g_name : option string)
    (w w' : World) (name : string) (npoints deriv : Z) (restricted : bool)
    (ref : nat) (func : FunctionalSpec) (sup : SuperFunctional)
    (dispersion : option Dispersion) :
  functionals w !! name = Some ref -> heap w !! ref = Some func ->
  f_xc_functionals func = None ->
  build_superfunctional_from_dictionary core g_name w name npoints deriv
    restricted = (Ok (sup, dispersion), w') ->
  let citations := map lx_citation (components core restricted func) in
  let descriptions := map lx_description (components core restricted func) in
  (f_citation func = None ->
   exists texts,
     sf_citation sup = Str.join Str.newline texts /\
     texts = collect_new [] citations /\ NoDup texts /\
     (forall t, t ∈ texts <-> t ∈ citations) /\
     (NoDup citations -> texts = citations)) /\
  (f_description func = None ->
   exists texts,
     sf_description sup = Str.join Str.newline texts /\
     texts = collect_new [] descriptions /\ NoDup texts /\
     (forall t, t ∈ texts <-> t ∈ descriptions) /\
     (NoDup descriptions -> texts = descriptions)).
Proof.
  intros Hreg Hheap Hxc Hrun. cbv zeta.
  rewrite (build_composite_ok core g_name w w' name npoints deriv restricted
             ref func sup dispersion Hreg Hheap Hxc Hrun).
  destruct (finalize_overrides_keep func name npoints deriv
              (build_composite core restricted func).1)
    as (_ & _ & _ & _ & _ & Hcit & Hdescr).
  destruct (composite_texts core restricted func) as [Hc Hd].
  assert (forall l : list string,
            NoDup (collect_new [] l) /\
            (forall t, t ∈ collect_new [] l <-> t ∈ l) /\
            (NoDup l -> collect_new [] l = l)) as Hspec.
  { intros l. destruct (collect_new_spec [] l (NoDup_nil_2)) as [Hnd Hmem].
    split; [done|]. split.
    - intros t. rewrite Hmem. split; [|by right].
      intros [Ht|Ht]; [by apply elem_of_nil in Ht|done].
    - intros Hl. by apply (collect_new_nodup [] l). }
  split; intros Hnone; eexists; (split; [|split; [reflexivity|apply Hspec]]).
  - by rewrite (Hcit Hnone).
  - by rewrite (Hdescr Hnone).
Qed.

(** The MP2 part of a definition without ["xc_functionals"]: with
    ["c_mp2"] the object has the ["alpha"] of ["c_mp2"], 0.0 when it
    has none, and the same-spin and opposite-spin factors only when
    they are given; what is not given, and everything when there is no
    ["c_mp2"], is as the blank composite had it. *)
Theorem build_mp2_scaling (core : Core) (g_name : option string)
    (w w' : World) (name : string) (npoints deriv : Z) (restricted : bool)
    (ref : nat) (func : FunctionalSpec) (sup : SuperFunctional)
    (dispersion : option Dispersion) :
  functionals w !! name = Some ref -> heap w !! ref = Some func ->
  f_xc_functionals func = None ->
  build_superfunctional_from_dictionary core g_name w name npoints deriv
    restricted = (Ok (sup, dispersion), w') ->
  sf_c_alpha sup
  = match f_c_mp2 func with
    | Some c_params => default 0%float (mp2_alpha c_params)
    | None => sf_c_alpha (blank core)
    end /\
  sf_c_ss_alpha sup
  = default (sf_c_ss_alpha (blank core)) (f_c_mp2 func ≫= mp2_ss) /\
  sf_c_os_alpha sup
  = default (sf_c_os_alpha (blank core)) (f_c_mp2 func ≫= mp2_os).
Proof.
  intros Hreg Hheap Hxc Hrun.
  rewrite (build_composite_ok core g_name w w' name npoints deriv restricted
             ref func sup dispersion Hreg Hheap Hxc Hrun).
  destruct (finalize_overrides_keep func name npoints deriv
              (build_composite core restricted func).1)
    as (_ & _ & -> & -> & -> & _).
  rewrite build_composite_form. simpl.
  match goal with
  | |- context [apply_c_mp2 ?m (fold_left ?f ?cs ?s)] =>
      assert (sf_c_alpha (fold_left f cs s) = sf_c_alpha (blank core) /\
              sf_c_ss_alpha (fold_left f cs s) = sf_c_ss_alpha (blank core) /\
              sf_c_os_alpha (fold_left f cs s) = sf_c_os_alpha (blank core))
        as (Ha & Hss & Hos);
      [|destruct m as [[[a|] [ss|] [os|]]|]; simpl; by rewrite ?Ha, ?Hss, ?Hos]
  end.
  rewrite add_c_fold. simpl.
  match goal with
  | |- context [apply_x_hf ?c ?r ?x ?h ?s] =>
      destruct (apply_x_hf_keeps c r x h s) as (_ & _ & -> & -> & ->)
  end.
  by rewrite add_x_fold.
Qed.

(** ** The definition source *)

Lemma setitem_get {V} (k k' : string) (v : V) (d : Dict.t V) :
  Dict.get k' (dict_setitem k v d)
  = if decide (k = k') then Some v else Dict.get k' d.
Proof.
  induction d as [|[k0 v0] d IH]; simpl.
  - destruct (String.eqb_spec k k'); case_decide; done.
  - destruct (String.eqb_spec k0 k) as [->|Hne]; simpl.
    + destruct (String.eqb_spec k k'); case_decide; done.
    + destruct (String.eqb_spec k0 k') as [->|Hne']; [|exact IH].
      by rewrite decide_False by congruence.
Qed.

Lemma setitem_keys {V} (k : string) (v : V) (d : Dict.t V) :
  Dict.keys (dict_setitem k v d)
  = if decide (k ∈ Dict.keys d) then Dict.keys d else Dict.keys d ++ [k].
Proof.
  induction d as [|[k0 v0] d IH]; [reflexivity|].
  cbn [dict_setitem]. destruct (String.eqb_spec k0 k) as [->|Hne].
  - unfold Dict.keys. rewrite !fmap_cons. cbn [fst].
    rewrite decide_True by (by left). done.
  - unfold Dict.keys in *. rewrite !fmap_cons. cbn [fst]. rewrite IH.
    destruct (decide (k ∈ d.*1)) as [Hin|Hin].
    + rewrite decide_True by (by right). done.
    + rewrite decide_False; [done|].
      intros [?|?]%elem_of_cons; congruence.
Qed.

Lemma update_prefix {V} (d other : Dict.t V) :
  Dict.keys d `prefix_of` Dict.keys (dict_update d other).
Proof.
  unfold dict_update. revert d.
  induction other as [|[k v] other IH]; intros d; simpl; [done|].
  etrans; [|apply IH]. rewrite setitem_keys.
  case_decide; [done|]. by apply prefix_app_r.
Qed.

Lemma get_not_key {V} (k : string) (d : Dict.t V) :
  k ∉ Dict.keys d -> Dict.get k d = None.
Proof.
  unfold Dict.keys. induction d as [|[k0 v0] d IH]; simpl; [done|].
  intros [Hne Hd]%not_elem_of_cons.
  destruct (String.eqb_spec k0 k); [congruence|auto].
Qed.

Lemma update_get {V} (d other : Dict.t V) (k : string) :
  NoDup (Dict.keys other) ->
  Dict.get k (dict_update d other)
  = match Dict.get k other with
    | Some v => Some v
    | None => Dict.get k d
    end.
Proof.
  unfold dict_update. revert d.
  induction other as [|[k0 v0] other IH]; intros d Hnd; simpl; [done|].
  apply NoDup_cons in Hnd as [Hk0 Hnd].
  rewrite IH by done. rewrite setitem_get.
  destruct (String.eqb_spec k0 k) as [->|Hne].
  - rewrite decide_True by done. by rewrite (get_not_key k other).
  - rewrite decide_False by done. done.
Qed.

(** A key defined in several tables has the definition of the table
    merged last: [dict_functionals[k]] is the entry of the
    double-hybrid table if it has one, else of the hybrid table, and
    so on back to the first table. *)
Theorem merged_lookup (xc lda gga mgga hyb dh : Dict.t FunctionalSpec)
    (k : string) :
  NoDup (Dict.keys xc) -> NoDup (Dict.keys lda) -> NoDup (Dict.keys gga) ->
  NoDup (Dict.keys mgga) -> NoDup (Dict.keys hyb) -> NoDup (Dict.keys dh) ->
  Dict.get k (merge_functional_lists xc lda gga mgga hyb dh)
  = match Dict.get k dh, Dict.get k hyb, Dict.get k mgga, Dict.get k gga,
          Dict.get k lda with
    | Some v, _, _, _, _ => Some v
    | None, Some v, _, _, _ => Some v
    | None, None, Some v, _, _ => Some v
    | None, None, None, Some v, _ => Some v
    | None, None, None, None, Some v => Some v
    | None, None, None, None, None => Dict.get k xc
    end.
Proof.
  intros Hxc Hlda Hgga Hmgga Hhyb Hdh. unfold merge_functional_lists.
  cbv zeta. rewrite !update_get by done. simpl.
  destruct (Dict.get k dh), (Dict.get k hyb), (Dict.get k mgga),
    (Dict.get k gga), (Dict.get k lda), (Dict.get k xc); reflexivity.
Qed.

Lemma update_fresh_keys {V} (d other : Dict.t V) :
  NoDup (Dict.keys d ++ Dict.keys other) ->
  Dict.keys (dict_update d other) = Dict.keys d ++ Dict.keys other.
Proof.
  unfold dict_update. revert d.
  induction other as [|[k v] other IH]; intros d Hnd.
  - by rewrite app_nil_r.
  - cbn [fold_left fst snd].
    assert (Dict.keys ((k, v) :: other) = k :: Dict.keys other) as Hk
      by reflexivity.
    rewrite Hk in *.
    assert (k ∉ Dict.keys d) as Hfresh.
    { apply NoDup_app in Hnd as (_ & Hdis & _). intros Hin.
      apply (Hdis k Hin). by left. }
    assert (Dict.keys (dict_setitem k v d) = Dict.keys d ++ [k]) as Hset
      by (by rewrite setitem_keys, decide_False).
    rewrite IH; rewrite Hset, <- app_assoc; [reflexivity|exact Hnd].
Qed.

(** A key keeps the place of its first definition: the keys of the
    first table open [dict_functionals] in their order, and redefining
    a key in a later table does not move it. *)
Theorem merged_order (xc lda gga mgga hyb dh : Dict.t FunctionalSpec) :
  NoDup (Dict.keys xc) ->
  Dict.keys xc `prefix_of`
    Dict.keys (merge_functional_lists xc lda gga mgga hyb dh).
Proof.
  intros Hxc. unfold merge_functional_lists. cbv zeta.
  assert (Dict.keys (dict_update [] xc) = Dict.keys xc) as Hfirst
    by (by rewrite (update_fresh_keys [] xc)).
  rewrite <- Hfirst at 1.
  do 5 (etrans; [|apply update_prefix]). done.
Qed.

(** ** The further properties at concrete definitions *)

Lemma check_duplicate_exchange_witness :
  check_consistency (Some "n") Examples.xc_and_x "XCX"
  = raise_ValidationError (Some "n") DuplicateExchangeSpec.
Proof.
  apply (check_duplicate_exchange (Some "n") Examples.xc_and_x "XCX").
  - by eexists.
  - left. by eexists.
Defined.

Lemma check_duplicate_correlation_witness :
  check_consistency None MoreExamples.xc_and_c "XCC"
  = raise_ValidationError None DuplicateCorrelationSpec.
Proof.
  apply (check_duplicate_correlation None MoreExamples.xc_and_c "XCC");
    try reflexivity.
  - by eexists.
  - left. by eexists.
Defined.

Lemma check_missing_exchange_witness :
  check_consistency (Some "n") (Examples.bare "BARE") "BARE"
  = raise_ValidationError (Some "n") MissingExchangeSpec.
Proof.
  apply (check_missing_exchange (Some "n") (Examples.bare "BARE") "BARE");
    reflexivity.
Defined.

Lemma check_missing_correlation_witness :
  check_consistency (Some "n") MoreExamples.x_only "XONLY"
  = raise_ValidationError (Some "n") MissingCorrelationSpec.
Proof.
  apply (check_missing_correlation (Some "n") MoreExamples.x_only "XONLY");
    try reflexivity.
  right. by eexists.
Defined.

Lemma check_consistency_accepts_iff_witness :
  check_consistency None Examples.beta_only "BO" = Ok tt <->
  (is_Some (f_x_functionals Examples.beta_only) \/
   is_Some (f_x_hf Examples.beta_only)) /\
  (is_Some (f_c_functionals Examples.beta_only) \/
   is_Some (f_c_mp2 Examples.beta_only)) /\
  forall x_hf component,
    f_x_hf Examples.beta_only = Some x_hf ->
    hf_use_libxc x_hf = Some component ->
    exists xf,
      f_x_functionals Examples.beta_only = Some xf /\
      component ∈ Dict.keys xf.
Proof.
  apply (check_consistency_accepts_iff None Examples.beta_only "BO").
  intros xf [= <-]. reflexivity.
Defined.

Lemma check_reference_without_components_witness :
  check_consistency None MoreExamples.dangling_x_hf "DANGLE"
  = Raise (KeyError "x_functionals").
Proof.
  eapply (check_reference_without_components None
            MoreExamples.dangling_x_hf "DANGLE"); try reflexivity.
  left. by eexists.
Defined.

Lemma check_component_called_use_libxc_witness :
  check_consistency None MoreExamples.named_use_libxc "ODD"
  = Raise (KeyError "use_libxc").
Proof.
  eapply (check_component_called_use_libxc None MoreExamples.named_use_libxc
            "ODD"); try reflexivity.
  - left. by eexists.
  - right. by left.
Defined.

Lemma import_failure_witness :
  Exists (fun item : string * FunctionalSpec => f_dispersion item.2 = None)
         Examples.dict_functionals /\
  exists s t, (s, t) ∈ dispersion_names /\
              Dict.get t MoreExamples.dashcoeff_short = None /\
              KeyError "d2gr" = KeyError t.
Proof.
  apply (import_failure Examples.dict_functionals
           MoreExamples.dashcoeff_short (KeyError "d2gr")).
  vm_compute. reflexivity.
Defined.

Lemma import_without_expansion_witness :
  exists w,
    build_functionals [("b88-d3", Examples.b88_d3)] [] = Ok w /\
    heap w = [("b88-d3", Examples.b88_d3)].*2.
Proof.
  apply (import_without_expansion [("b88-d3", Examples.b88_d3)] []).
  repeat constructor. by eexists.
Defined.

Lemma import_heap_witness :
  exists variants,
    heap Examples.world = Examples.dict_functionals.*2 ++ variants /\
    Forall (is_variant_from Examples.dict_functionals Examples.dashcoeff)
           variants.
Proof.
  apply (import_heap Examples.dict_functionals Examples.dashcoeff
           Examples.world).
  exact example_world.
Defined.

Lemma import_table_sound_witness :
  exists func,
    heap Examples.world !! 6%nat = Some func /\
    ((exists n, Examples.dict_functionals !! 6%nat = Some (n, func)) /\
     "B88-D3" ∈ get_functional_aliases func \/
     exists parent s row a,
       func = dispersion_variant parent (disp_type_of func) row /\
       parent ∈ Examples.dict_functionals.*2 /\
       (s, disp_type_of func) ∈ dispersion_names /\
       a ∈ get_functional_aliases parent /\
       "B88-D3" = a +:+ "-" +:+ Str.upper s).
Proof.
  apply (import_table_sound Examples.dict_functionals Examples.dashcoeff
           Examples.world "B88-D3" 6).
  - exact example_world.
  - vm_compute. reflexivity.
Defined.

Lemma build_surfaces_validation_witness :
  build_superfunctional_from_dictionary Examples.core None
    (MoreExamples.world_of "DANGLE" MoreExamples.dangling_x_hf) "DANGLE"
    500 1 true
  = (Raise (KeyError "x_functionals"),
     MoreExamples.world_of "DANGLE" MoreExamples.dangling_x_hf).
Proof.
  apply (build_surfaces_validation Examples.core None
           (MoreExamples.world_of "DANGLE" MoreExamples.dangling_x_hf)
           "DANGLE" 500 1 true 0 MoreExamples.dangling_x_hf);
    vm_compute; reflexivity.
Defined.

Lemma build_empty_bundle_witness :
  build_superfunctional_from_dictionary Examples.core None
    (MoreExamples.world_of "EMPTY" MoreExamples.empty_bundle) "EMPTY"
    500 1 true
  = (Raise (UnboundLocalError "xc_name"),
     MoreExamples.world_of "EMPTY" MoreExamples.empty_bundle).
Proof.
  apply (build_empty_bundle Examples.core None
           (MoreExamples.world_of "EMPTY" MoreExamples.empty_bundle)
           "EMPTY" 500 1 true 0 MoreExamples.empty_bundle);
    vm_compute; reflexivity.
Defined.

Lemma build_returns_dispersion_witness :
  exists sup dispersion w',
    build_superfunctional_from_dictionary Examples.core None Examples.world
      "B88-D3ZERO" 500 1 true = (Ok (sup, dispersion), w') /\
    (disp_citation <$> dispersion) = Some (Some CitFalse) /\
    (f_dispersion <$> heap w' !! 5%nat) = Some dispersion /\
    (forall d_params, dispersion = Some d_params ->
                      is_Some (disp_citation d_params)).
Proof.
  eexists _, _, _. split; [vm_compute; reflexivity|].
  split; [reflexivity|].
  eapply (build_returns_dispersion Examples.core None Examples.world _
            "B88-D3ZERO" 500 1 true 5); vm_compute; reflexivity.
Defined.

Lemma build_finalizes_witness :
  exists sup dispersion w',
    build_superfunctional_from_dictionary Examples.core None Examples.world
      "PBEH" 500 1 true = (Ok (sup, dispersion), w') /\
    sf_name sup = "PBEH" /\ sf_max_points sup = 500%Z /\
    sf_deriv sup = 1%Z /\ sf_allocated sup = true.
Proof.
  eexists _, _, _. split; [vm_compute; reflexivity|].
  eapply (build_finalizes Examples.core None Examples.world _ "PBEH" 500 1
            true).
  vm_compute. reflexivity.
Defined.

Lemma build_overrides_texts_witness :
  exists sup dispersion w',
    build_superfunctional_from_dictionary Examples.core None
      (MoreExamples.world_of "DH" MoreExamples.double_hybrid) "DH" 500 1 true
    = (Ok (sup, dispersion), w') /\
    (forall text,
       f_citation MoreExamples.double_hybrid = Some text ->
       sf_citation sup = text) /\
    (forall text,
       f_description MoreExamples.double_hybrid = Some text ->
       sf_description sup = text).
Proof.
  eexists _, _, _. split; [vm_compute; reflexivity|].
  eapply (build_overrides_texts Examples.core None
            (MoreExamples.world_of "DH" MoreExamples.double_hybrid) _ "DH"
            500 1 true 0 MoreExamples.double_hybrid);
    vm_compute; reflexivity.
Defined.

Lemma build_again_result_witness :
  (build_superfunctional_from_dictionary Examples.core None
     (build_superfunctional_from_dictionary Examples.core None Examples.world
        "BO" 500 1 true).2 "BO" 500 1 true).1
  = (build_superfunctional_from_dictionary Examples.core None Examples.world
       "BO" 500 1 true).1.
Proof.
  apply (build_again_result Examples.core None Examples.world "BO" 500 1
           true).
  reflexivity.
Defined.

Lemma build_components_witness :
  exists sup dispersion w',
    build_superfunctional_from_dictionary Examples.core None
      (MoreExamples.world_of "DH" MoreExamples.double_hybrid) "DH" 500 1 true
    = (Ok (sup, dispersion), w') /\
    sf_x_functionals sup
    = sf_x_functionals (blank Examples.core) ++
      map (x_component Examples.core true)
          (default [] (f_x_functionals MoreExamples.double_hybrid)) /\
    sf_c_functionals sup
    = sf_c_functionals (blank Examples.core) ++
      map (c_component Examples.core true)
          (default [] (f_c_functionals MoreExamples.double_hybrid)).
Proof.
  eexists _, _, _. split; [vm_compute; reflexivity|].
  eapply (build_components Examples.core None
            (MoreExamples.world_of "DH" MoreExamples.double_hybrid) _ "DH"
            500 1 true 0 MoreExamples.double_hybrid);
    vm_compute; reflexivity.
Defined.

Lemma build_component_alphas_witness :
  exists sup dispersion w',
    build_superfunctional_from_dictionary Examples.core None
      (MoreExamples.world_of "DH" MoreExamples.double_hybrid) "DH" 500 1 true
    = (Ok (sup, dispersion), w') /\
    exists xs cs,
      sf_x_functionals sup = sf_x_functionals (blank Examples.core) ++ xs /\
      sf_c_functionals sup = sf_c_functionals (blank Examples.core) ++ cs /\
      Forall2 (fun (item : string * XParams) x =>
                 lx_alpha x
                 = default
                     (if requests_libxc item.2 then 1%float
                      else lx_alpha (LibXCFunctional_new Examples.core
                                       ("XC_" +:+ item.1) true))
                     (xp_alpha item.2))
              (default [] (f_x_functionals MoreExamples.double_hybrid)) xs /\
      Forall2 (fun (item : string * CParams) c =>
                 lx_alpha c = default 1%float (cp_alpha item.2))
              (default [] (f_c_functionals MoreExamples.double_hybrid)) cs.
Proof.
  eexists _, _, _. split; [vm_compute; reflexivity|].
  eapply (build_component_alphas Examples.core None
            (MoreExamples.world_of "DH" MoreExamples.double_hybrid) _ "DH"
            500 1 true 0 MoreExamples.double_hybrid);
    vm_compute; reflexivity.
Defined.

Lemma build_joins_texts_witness :
  exists sup dispersion w',
    build_superfunctional_from_dictionary Examples.core None Examples.world
      "TWOHYB" 500 1 true = (Ok (sup, dispersion), w') /\
    let citations :=
      map lx_citation (components Examples.core true Examples.two_hybrid) in
    let descriptions :=
      map lx_description (components Examples.core true Examples.two_hybrid) in
    (f_citation Examples.two_hybrid = None ->
     exists texts,
       sf_citation sup = Str.join Str.newline texts /\
       texts = collect_new [] citations /\ NoDup texts /\
       (forall t, t ∈ texts <-> t ∈ citations) /\
       (NoDup citations -> texts = citations)) /\
    (f_description Examples.two_hybrid = None ->
     exists texts,
       sf_description sup = Str.join Str.newline texts /\
       texts = collect_new [] descriptions /\ NoDup texts /\
       (forall t, t ∈ texts <-> t ∈ descriptions) /\
       (NoDup descriptions -> texts = descriptions)).
Proof.
  eexists _, _, _. split; [vm_compute; reflexivity|].
  eapply (build_joins_texts Examples.core None Examples.world _ "TWOHYB" 500
            1 true 3 Examples.two_hybrid); vm_compute; reflexivity.
Defined.

Lemma build_mp2_scaling_witness :
  exists sup dispersion w',
    build_superfunctional_from_dictionary Examples.core None
      (MoreExamples.world_of "DH" MoreExamples.double_hybrid) "DH" 500 1 true
    = (Ok (sup, dispersion), w') /\
    sf_c_alpha sup = 0.25%float /\
    sf_c_ss_alpha sup = sf_c_ss_alpha (blank Examples.core) /\
    sf_c_os_alpha sup = 0.5%float.
Proof.
  eexists _, _, _. split; [vm_compute; reflexivity|].
  eapply (build_mp2_scaling Examples.core None
            (MoreExamples.world_of "DH" MoreExamples.double_hybrid) _ "DH"
            500 1 true 0 MoreExamples.double_hybrid);
    vm_compute; reflexivity.
Defined.

Lemma merged_lookup_witness :
  Dict.get "pbe0"
    (merge_functional_lists [] [] MoreExamples.gga_list []
       MoreExamples.hyb_list [])
  = Some Examples.pbe0.
Proof.
  apply (merged_lookup [] [] MoreExamples.gga_list [] MoreExamples.hyb_list
           [] "pbe0"); by_computation.
Defined.

Lemma merged_order_witness :
  Dict.keys MoreExamples.gga_list `prefix_of`
    Dict.keys (merge_functional_lists MoreExamples.gga_list [] [] []
                 MoreExamples.hyb_list []).
Proof.
  apply (merged_order MoreExamples.gga_list [] [] [] MoreExamples.hyb_list []).
  by_computation.
Defined.
